(** * ffmpeg-demo: the resilient stream recorder

    A shallow embedding of [src/index.js] (class [ResilientStreamRecorder])
    and of the standalone retry loop of [src/unnamed/part_000].

    JavaScript runs every callback to completion, so each callback of the
    source is one function on an explicit world: the recorder's fields, the
    file system the [fs] calls act on, and the log of actions performed on
    the outside (subprocesses spawned, signals sent, timers armed).  Values
    captured by a closure travel with the event that invokes the callback. *)

From Stdlib Require Import ZArith Floats Sorted.
From stdpp Require Import gmap strings list fin_maps pretty.

Local Open Scope Z_scope.

(** ** JavaScript numbers where the source divides

    Millisecond counts are integers well inside the exactly representable
    range of a double; they are kept as [Z].  [getStatus] divides them, and
    division leaves the integers (and, by zero, the finite numbers), so there
    the values are IEEE 754 binary64 floats. *)

Module JS.

Definition of_Z (z : Z) : float :=
  if z <? 0 then PrimFloat.opp (PrimFloat.of_uint63 (Uint63.of_Z (- z)))
  else PrimFloat.of_uint63 (Uint63.of_Z z).

Definition two52 : float := 4503599627370496%float.

(** [Math.floor]: zeros, NaN, infinities and magnitudes from 2^52 on are
    returned as they are; below, adding and subtracting 2^52 rounds to an
    integer, which is lowered by one when it lies above the argument. *)
Definition Math_floor (x : float) : float :=
  if PrimFloat.eqb x 0%float then x
  else if PrimFloat.ltb (PrimFloat.abs x) two52 then
    let r := if PrimFloat.ltb 0%float x
             then PrimFloat.sub (PrimFloat.add x two52) two52
             else PrimFloat.add (PrimFloat.sub x two52) two52 in
    if PrimFloat.ltb x r then PrimFloat.sub r 1%float else r
  else x.

(** The line feed of the string literal ["\n"]. *)
Definition LF : string := String (Ascii.ascii_of_nat 10) EmptyString.

(** [Math.ceil(n / 1000)] for an integer [n]. *)
Definition ceil_div_1000 (n : Z) : Z := - ((- n) / 1000).

End JS.

(** ** The shallow availability probe ([checkStreamAvailability])

    The promise executor parses the URL, arms a three-second timer and sends
    a HEAD request; the first of the timer and the request's callbacks to run
    settles the promise.  [new URL] belongs to the runtime: it is a parameter
    that returns [None] where the runtime throws a [TypeError]. *)

Module Probe.

Record URL := {
  protocol : string;
  hostname : string;
  port : string;
  pathname : string;
  search : string
}.

Inductive Client := http | https.

Record RequestOptions := {
  opt_hostname : string;
  opt_port : string;
  opt_path : string;
  opt_method : string;
  opt_timeout : Z
}.

Inductive Promise (A : Type) :=
| Pending
| Resolved (value : A)
| Rejected.
Arguments Pending {A}.
Arguments Resolved {A} value.
Arguments Rejected {A}.

(** What the event loop can deliver to one probe: the response callback,
    the request's [error] and [timeout] events, and the expiry of the
    timer set by [setTimeout]. *)
Inductive ProbeEvent :=
| Response (statusCode : Z)
| RequestError
| RequestTimeout
| TimerExpired.

Record ProbeState := {
  promise : Promise bool;
  timeout : bool;                       (* the timer is armed *)
  req : option (Client * RequestOptions);
  destroyed : bool                      (* req.destroy() was called *)
}.

Definition resolve (value : bool) (st : ProbeState) : ProbeState :=
  match promise st with
  | Pending => {| promise := Resolved value; timeout := timeout st;
                  req := req st; destroyed := destroyed st |}
  | _ => st
  end.

Definition clearTimeout (st : ProbeState) : ProbeState :=
  {| promise := promise st; timeout := false;
     req := req st; destroyed := destroyed st |}.

Definition destroy (st : ProbeState) : ProbeState :=
  {| promise := promise st; timeout := timeout st;
     req := req st; destroyed := true |}.

Section WithRuntime.

Variable URL_new : string -> option URL.

(** The body of [new Promise((resolve) => { ... })] up to [req.end()]. *)
Definition executor (streamUrl : string) : ProbeState :=
  match URL_new streamUrl with
  | None =>
      {| promise := Rejected; timeout := false; req := None;
         destroyed := false |}
  | Some url =>
      let client :=
        if String.eqb (protocol url) "https:" then https else http in
      {| promise := Pending;
         timeout := true;
         req := Some (client,
                      {| opt_hostname := hostname url;
                         opt_port := port url;
                         opt_path := pathname url +:+ search url;
                         opt_method := "HEAD";
                         opt_timeout := 3000 |});
         destroyed := false |}
  end.

Definition isAvailable (statusCode : Z) : bool :=
  (statusCode =? 200) || (statusCode =? 206).

(** One callback of the probe.  A timer that was cleared does not fire. *)
Definition handle (st : ProbeState) (ev : ProbeEvent) : ProbeState :=
  match ev with
  | TimerExpired =>
      if timeout st then resolve false (clearTimeout st) else st
  | Response statusCode =>
      resolve (isAvailable statusCode) (clearTimeout st)
  | RequestError =>
      resolve false (clearTimeout st)
  | RequestTimeout =>
      resolve false (destroy (clearTimeout st))
  end.

(** The promise returned by [checkStreamAvailability] once the event loop
    has delivered [evs], oldest first. *)
Definition checkStreamAvailability
    (streamUrl : string) (evs : list ProbeEvent) : Promise bool :=
  promise (foldl handle (executor streamUrl) evs).

End WithRuntime.

End Probe.

(** ** The recorder's data *)

Record Recording := {
  file : string;
  duration : Z;
  index : nat
}.

Record Recorder := {
  streamUrl : string;
  outputDir : string;
  recordings : list Recording;
  totalDurationMs : Z;
  recordedDurationMs : Z;
  isRecording : bool;
  isMonitoring : bool;
  currentProcess : option nat;
  startTime : option Z;
  sessionId : Z;
  streamMonitorInterval : option nat;
  quickCheckInterval : option nat;
  lastSuccessfulCheck : option Z;
  consecutiveFailures : Z;
  isStreamAvailable : bool
}.

Definition set_recordings (v : list Recording) (r : Recorder) : Recorder :=
  Build_Recorder (streamUrl r) (outputDir r) v (totalDurationMs r)
    (recordedDurationMs r) (isRecording r) (isMonitoring r)
    (currentProcess r) (startTime r) (sessionId r) (streamMonitorInterval r)
    (quickCheckInterval r) (lastSuccessfulCheck r) (consecutiveFailures r)
    (isStreamAvailable r).

Definition set_totalDurationMs (v : Z) (r : Recorder) : Recorder :=
  Build_Recorder (streamUrl r) (outputDir r) (recordings r) v
    (recordedDurationMs r) (isRecording r) (isMonitoring r)
    (currentProcess r) (startTime r) (sessionId r) (streamMonitorInterval r)
    (quickCheckInterval r) (lastSuccessfulCheck r) (consecutiveFailures r)
    (isStreamAvailable r).

Definition set_recordedDurationMs (v : Z) (r : Recorder) : Recorder :=
  Build_Recorder (streamUrl r) (outputDir r) (recordings r)
    (totalDurationMs r) v (isRecording r) (isMonitoring r)
    (currentProcess r) (startTime r) (sessionId r) (streamMonitorInterval r)
    (quickCheckInterval r) (lastSuccessfulCheck r) (consecutiveFailures r)
    (isStreamAvailable r).

Definition set_isRecording (v : bool) (r : Recorder) : Recorder :=
  Build_Recorder (streamUrl r) (outputDir r) (recordings r)
    (totalDurationMs r) (recordedDurationMs r) v (isMonitoring r)
    (currentProcess r) (startTime r) (sessionId r) (streamMonitorInterval r)
    (quickCheckInterval r) (lastSuccessfulCheck r) (consecutiveFailures r)
    (isStreamAvailable r).

Definition set_isMonitoring (v : bool) (r : Recorder) : Recorder :=
  Build_Recorder (streamUrl r) (outputDir r) (recordings r)
    (totalDurationMs r) (recordedDurationMs r) (isRecording r) v
    (currentProcess r) (startTime r) (sessionId r) (streamMonitorInterval r)
    (quickCheckInterval r) (lastSuccessfulCheck r) (consecutiveFailures r)
    (isStreamAvailable r).

Definition set_currentProcess (v : option nat) (r : Recorder) : Recorder :=
  Build_Recorder (streamUrl r) (outputDir r) (recordings r)
    (totalDurationMs r) (recordedDurationMs r) (isRecording r)
    (isMonitoring r) v (startTime r) (sessionId r) (streamMonitorInterval r)
    (quickCheckInterval r) (lastSuccessfulCheck r) (consecutiveFailures r)
    (isStreamAvailable r).

Definition set_startTime (v : option Z) (r : Recorder) : Recorder :=
  Build_Recorder (streamUrl r) (outputDir r) (recordings r)
    (totalDurationMs r) (recordedDurationMs r) (isRecording r)
    (isMonitoring r) (currentProcess r) v (sessionId r)
    (streamMonitorInterval r) (quickCheckInterval r) (lastSuccessfulCheck r)
    (consecutiveFailures r) (isStreamAvailable r).

Definition set_quickCheckInterval (v : option nat) (r : Recorder) : Recorder :=
  Build_Recorder (streamUrl r) (outputDir r) (recordings r)
    (totalDurationMs r) (recordedDurationMs r) (isRecording r)
    (isMonitoring r) (currentProcess r) (startTime r) (sessionId r)
    (streamMonitorInterval r) v (lastSuccessfulCheck r)
    (consecutiveFailures r) (isStreamAvailable r).

Definition set_lastSuccessfulCheck (v : option Z) (r : Recorder) : Recorder :=
  Build_Recorder (streamUrl r) (outputDir r) (recordings r)
    (totalDurationMs r) (recordedDurationMs r) (isRecording r)
    (isMonitoring r) (currentProcess r) (startTime r) (sessionId r)
    (streamMonitorInterval r) (quickCheckInterval r) v
    (consecutiveFailures r) (isStreamAvailable r).

Definition set_consecutiveFailures (v : Z) (r : Recorder) : Recorder :=
  Build_Recorder (streamUrl r) (outputDir r) (recordings r)
    (totalDurationMs r) (recordedDurationMs r) (isRecording r)
    (isMonitoring r) (currentProcess r) (startTime r) (sessionId r)
    (streamMonitorInterval r) (quickCheckInterval r) (lastSuccessfulCheck r)
    v (isStreamAvailable r).

Definition set_isStreamAvailable (v : bool) (r : Recorder) : Recorder :=
  Build_Recorder (streamUrl r) (outputDir r) (recordings r)
    (totalDurationMs r) (recordedDurationMs r) (isRecording r)
    (isMonitoring r) (currentProcess r) (startTime r) (sessionId r)
    (streamMonitorInterval r) (quickCheckInterval r) (lastSuccessfulCheck r)
    (consecutiveFailures r) v.

(** Errors: [new Error(message)], a failed [fs] call, and the error object a
    failed [spawn] hands to the [error] listener. *)
Inductive JsError :=
| Error (message : string)
| ErrnoException (syscall : string) (path : string)
| SpawnError.

(** The callbacks the source hands to timers and promise continuations. *)
Inductive Callback :=
| checkCompletion_cb (finalOutput : string)
| recordSegment_cb
| startContinuousMonitoring_cb
| initialCheck_cb (finalOutput : string)
| quickCheck_cb
| verify_cb.

(** What a callback does to the outside, in the order it does it. *)
Inductive Action :=
| Spawn (pid : nat) (command : string) (args : list string)
| Kill (pid : nat) (signal : string)
| SetInterval (id : nat) (ms : Z)
| ClearInterval (id : nat)
| SetTimeout (cb : Callback) (ms : Z)
| CheckAvailability (cb : Callback)
| SegmentResolved (pid : nat)
| Resolve (value : string)
| Reject (e : JsError).

(** File contents are byte strings; directories are not modelled. *)
Record World := {
  this : Recorder;
  fs : gmap string string;
  actions : list Action;
  nextHandle : nat
}.

Definition update (f : Recorder -> Recorder) (w : World) : World :=
  {| this := f (this w); fs := fs w; actions := actions w;
     nextHandle := nextHandle w |}.

Definition set_fs (m : gmap string string) (w : World) : World :=
  {| this := this w; fs := m; actions := actions w;
     nextHandle := nextHandle w |}.

Definition perform (a : Action) (w : World) : World :=
  {| this := this w; fs := fs w; actions := actions w ++ [a];
     nextHandle := nextHandle w |}.

Definition fresh (w : World) : nat * World :=
  (nextHandle w,
   {| this := this w; fs := fs w; actions := actions w;
      nextHandle := S (nextHandle w) |}).

(** [child_process.spawn]: the new process gets a handle of its own. *)
Definition spawn (command : string) (args : list string) (w : World)
  : nat * World :=
  let '(pid, w) := fresh w in
  (pid, perform (Spawn pid command args) w).

(** The [fs] calls of the source on the file map. *)
Definition existsSync (p : string) (w : World) : bool :=
  match fs w !! p with Some _ => true | None => false end.

Definition unlinkSync (p : string) (w : World) : JsError + World :=
  match fs w !! p with
  | Some _ => inr (set_fs (delete p (fs w)) w)
  | None => inl (ErrnoException "unlink" p)
  end.

Definition renameSync (oldPath newPath : string) (w : World)
  : JsError + World :=
  match fs w !! oldPath with
  | Some content =>
      inr (set_fs (<[newPath := content]> (delete oldPath (fs w))) w)
  | None => inl (ErrnoException "rename" oldPath)
  end.

Definition writeFileSync (p content : string) (w : World) : World :=
  set_fs (<[p := content]> (fs w)) w.

(** [if (fs.existsSync(p)) fs.unlinkSync(p)] *)
Definition unlinkIfExists (p : string) (w : World) : World :=
  if existsSync p w then
    match unlinkSync p w with inr w' => w' | inl _ => w end
  else w.

(** ** The recorder's methods and callbacks *)

(** What a recording attempt's listeners close over. *)
Record Attempt := {
  segmentIndex : nat;
  segmentFile : string;
  segmentStartTime : Z;
  process : nat
}.

(** What the merge subprocess's listeners close over. *)
Record Merge := {
  finalPath : string;
  concatFile : string;
  mergeProcess : nat
}.

(** How the synchronous part of [mergeRecordings] ends. *)
Inductive MergeStart :=
| MergeThrew (e : JsError)
| MergeReturned (path : string)
| MergeSpawned (m : Merge).

(** How a listener of the merge subprocess ends: the promise resolved or
    rejected, or an exception left the listener with the promise pending. *)
Inductive MergeEnd :=
| MergeResolved (path : string)
| MergeRejected (e : JsError)
| MergeUncaught (e : JsError).

(** [code === 0]; the exit code is [null] when a signal ended the process. *)
Definition code_is_zero (code : option Z) : bool :=
  match code with Some 0 => true | _ => false end.

Definition show_code (code : option Z) : string :=
  match code with Some c => pretty c | None => "null" end.

(** [recordings.sort((a, b) => a.index - b.index)]: ascending by index,
    equal indices keep their order. *)
Fixpoint insert_by_index (r : Recording) (l : list Recording)
  : list Recording :=
  match l with
  | [] => [r]
  | x :: l' =>
      if (index r <=? index x)%nat then r :: l
      else x :: insert_by_index r l'
  end.

Definition sort_by_index (l : list Recording) : list Recording :=
  foldr insert_by_index [] l.

(** [array.join(sep)] *)
Fixpoint join (sep : string) (l : list string) : string :=
  match l with
  | [] => EmptyString
  | [x] => x
  | x :: l' => x +:+ sep +:+ join sep l'
  end.

Definition constructor (url dir : string) (now : Z) : Recorder :=
  {| streamUrl := url;
     outputDir := dir;
     recordings := [];
     totalDurationMs := 0;
     recordedDurationMs := 0;
     isRecording := false;
     isMonitoring := false;
     currentProcess := None;
     startTime := None;
     sessionId := now;
     streamMonitorInterval := None;
     quickCheckInterval := None;
     lastSuccessfulCheck := None;
     consecutiveFailures := 0;
     isStreamAvailable := false |}.

Definition new_world (url dir : string) (now : Z) (files : gmap string string)
  : World :=
  {| this := constructor url dir now; fs := files; actions := [];
     nextHandle := 0 |}.

Definition stopStreamMonitoring (w : World) : World :=
  let w := update (set_isMonitoring false) w in
  match quickCheckInterval (this w) with
  | Some id =>
      update (set_quickCheckInterval None) (perform (ClearInterval id) w)
  | None => w
  end.

Definition ffprobeArgs (url : string) : list string :=
  ["-v"; "quiet"; "-print_format"; "json"; "-show_streams";
   "-timeout"; "5000000"; url].

Definition startContinuousMonitoring (w : World) : World :=
  if negb (isMonitoring (this w)) || isRecording (this w) then w
  else snd (spawn "ffprobe" (ffprobeArgs (streamUrl (this w))) w).

Definition startStreamMonitoring (w : World) : World :=
  if isMonitoring (this w) then w
  else
    let w := update (set_isMonitoring true) w in
    let '(id, w) := fresh w in
    let w := perform (SetInterval id 2000) w in
    let w := update (set_quickCheckInterval (Some id)) w in
    startContinuousMonitoring w.

Definition ffmpegArgs (url : string) (remainingMs : Z) (segmentFile : string)
  : list string :=
  ["-i"; url; "-c"; "copy"; "-avoid_negative_ts"; "make_zero";
   "-fflags"; "+genpts"; "-reconnect"; "1"; "-reconnect_at_eof"; "1";
   "-reconnect_streamed"; "1"; "-reconnect_delay_max"; "2";
   "-t"; pretty (JS.ceil_div_1000 remainingMs); "-y"; segmentFile].

Definition mergeArgs (concatFile finalPath : string) : list string :=
  ["-f"; "concat"; "-safe"; "0"; "-i"; concatFile; "-c"; "copy"; "-y";
   finalPath].

Definition stop (w : World) : World :=
  let w := stopStreamMonitoring w in
  match currentProcess (this w) with
  | Some pid =>
      update (set_isRecording false) (perform (Kill pid "SIGTERM") w)
  | None => w
  end.

(* Keep these as units when a goal is simplified. *)
Arguments unlinkIfExists : simpl never.
Arguments stopStreamMonitoring : simpl never.
Arguments startContinuousMonitoring : simpl never.
Arguments startStreamMonitoring : simpl never.
Arguments stop : simpl never.

Record Status := {
  status_isRecording : bool;
  status_isMonitoring : bool;
  status_isStreamAvailable : bool;
  recordedDuration : float;
  totalDuration : float;
  progress : float;
  segmentsRecorded : nat;
  status_consecutiveFailures : Z
}.

Definition getStatus (r : Recorder) : Status :=
  {| status_isRecording := isRecording r;
     status_isMonitoring := isMonitoring r;
     status_isStreamAvailable := isStreamAvailable r;
     recordedDuration :=
       JS.Math_floor
         (PrimFloat.div (JS.of_Z (recordedDurationMs r)) 1000%float);
     totalDuration :=
       JS.Math_floor (PrimFloat.div (JS.of_Z (totalDurationMs r)) 1000%float);
     progress :=
       JS.Math_floor
         (PrimFloat.mul
            (PrimFloat.div (JS.of_Z (recordedDurationMs r))
                           (JS.of_Z (totalDurationMs r)))
            100%float);
     segmentsRecorded := length (recordings r);
     status_consecutiveFailures := consecutiveFailures r |}.

(** [path.join] and [path.resolve] on operands that are already normalized
    and absolute, for evaluating the recorder on concrete inputs. *)
Definition posix_join (dir name : string) : string := dir +:+ "/" +:+ name.
Definition posix_resolve (p : string) : string := p.

(** ** The standalone retry loop of [src/unnamed/part_000] *)

Module Naive.

Definition targetDuration : Z := 2 * 60.

(** The module-level counters. *)
Record State := {
  totalRecorded : Z;
  attempt : Z
}.

Definition initial : State := {| totalRecorded := 0; attempt := 1 |}.

(** How the promise of [recordSegment] settles. *)
Inductive Settled :=
| resolved (duration : Z) (filename : string)
| rejected (e : JsError).

(** The [exit] listener; [Math.floor] of the quotient is [Z.div]. *)
Definition onExit
    (startTime now : Z) (code : option Z) (signal : option string)
    (filename : string) : Settled :=
  let duration := (now - startTime) / 1000 in
  if duration <? 5 then
    rejected (Error "Stream down or FFmpeg failed quickly.")
  else resolved duration filename.

(** The [error] listener. *)
Definition onError : Settled := rejected SpawnError.

(** The body of the [while] loop once the awaited promise has settled. *)
Definition iteration (s : Settled) (st : State) : State :=
  let st :=
    match s with
    | resolved duration _ =>
        {| totalRecorded := totalRecorded st + duration;
           attempt := attempt st |}
    | rejected _ => st
    end in
  {| totalRecorded := totalRecorded st; attempt := attempt st + 1 |}.

(** [startRecording]: the loop, fed with how each awaited promise settles. *)
Fixpoint startRecording (settled : list Settled) (st : State) : State :=
  match settled with
  | [] => st
  | s :: settled' =>
      if totalRecorded st <? targetDuration
      then startRecording settled' (iteration s st)
      else st
  end.

End Naive.

(** ** Notions the properties are stated with *)

(** The sum of the durations of the retained segments. *)
Definition sum_durations (l : list Recording) : Z :=
  foldr (fun recording acc => duration recording + acc) 0 l.

(** The value that follows [flag] on a command line of flag-value pairs. *)
Fixpoint option_after (flag : string) (args : list string) : option string :=
  match args with
  | flag' :: value :: args' =>
      if String.eqb flag' flag then Some value else option_after flag args'
  | _ => None
  end.

(** The listeners of a capture close over its attempt; two closures belong
    to the same capture when they hold the same values. *)
Definition same_attempt (a b : Attempt) : bool :=
  Nat.eqb (segmentIndex a) (segmentIndex b)
  && String.eqb (segmentFile a) (segmentFile b)
  && Z.eqb (segmentStartTime a) (segmentStartTime b)
  && Nat.eqb (process a) (process b).

(** Among the captures whose subprocess has not closed. *)
Definition is_running (a : Attempt) (running : list Attempt) : bool :=
  existsb (same_attempt a) running.

(** The captures still running once the subprocess of [a] has closed. *)
Definition closed (a : Attempt) (running : list Attempt) : list Attempt :=
  List.filter (fun b => negb (same_attempt a b)) running.

(** The intervals a log of actions leaves armed: set, and not cleared
    since. *)
Fixpoint without (id : nat) (l : list nat) : list nat :=
  match l with
  | [] => []
  | x :: l' => if Nat.eqb x id then without id l' else x :: without id l'
  end.

Definition armed_after (armed : list nat) (a : Action) : list nat :=
  match a with
  | SetInterval id _ => armed ++ [id]
  | ClearInterval id => without id armed
  | _ => armed
  end.

Definition armedIntervals (log : list Action) : list nat :=
  foldl armed_after [] log.
Arguments armedIntervals : simpl never.

(** The interval the recorder holds, if any. *)
Definition heldInterval (r : Recorder) : list nat :=
  match quickCheckInterval r with Some id => [id] | None => [] end.

(** What every world the recorder reaches satisfies: monitoring is on
    exactly while an interval is held, the held interval is the only one
    armed, and a recorder that says it is recording has a process on
    record. *)
Definition well_formed (w : World) : Prop :=
  isMonitoring (this w)
  = match quickCheckInterval (this w) with Some _ => true | None => false end
  /\ armedIntervals (actions w) = heldInterval (this w)
  /\ (isRecording (this w) = true -> is_Some (currentProcess (this w))).

Section Recorder.

(** [path.join] and [path.resolve] belong to the runtime. *)
Variable path_join : string -> string -> string.
Variable path_resolve : string -> string.

Definition segmentPath (r : Recorder) (segmentIndex : nat) : string :=
  path_join (outputDir r)
    ("segment_" +:+ pretty (sessionId r) +:+ "_" +:+ pretty segmentIndex
     +:+ ".mp4").

(** [recordSegment] up to the point where the listeners are installed. *)
Definition recordSegment (now : Z) (w : World) : World * option Attempt :=
  if totalDurationMs (this w) <=? recordedDurationMs (this w) then (w, None)
  else
    let remainingMs :=
      totalDurationMs (this w) - recordedDurationMs (this w) in
    let segmentIndex := length (recordings (this w)) in
    let segmentFile := segmentPath (this w) segmentIndex in
    let w := update (set_isRecording true) w in
    let segmentStartTime := now in
    let '(pid, w) :=
      spawn "ffmpeg"
            (ffmpegArgs (streamUrl (this w)) remainingMs segmentFile) w in
    let w := update (set_currentProcess (Some pid)) w in
    (w, Some {| segmentIndex := segmentIndex;
                segmentFile := segmentFile;
                segmentStartTime := segmentStartTime;
                process := pid |}).

Definition resumeRecording (now : Z) (w : World) : World * option Attempt :=
  if isRecording (this w) then (w, None)
  else if totalDurationMs (this w) <=? recordedDurationMs (this w)
  then (w, None)
  else recordSegment now (stopStreamMonitoring w).

(** The [close] listener of a recording attempt. *)
Definition onClose (a : Attempt) (code : option Z) (now : Z) (w : World)
  : World :=
  let w := update (set_isRecording false) w in
  let segmentDuration := now - segmentStartTime a in
  if code_is_zero code && existsSync (segmentFile a) w then
    let w :=
      update (fun r =>
                set_recordings
                  (recordings r ++
                     [{| file := segmentFile a;
                         duration := segmentDuration;
                         index := segmentIndex a |}]) r) w in
    let w :=
      update (fun r =>
                set_recordedDurationMs
                  (recordedDurationMs r + segmentDuration) r) w in
    if recordedDurationMs (this w) <? totalDurationMs (this w) then
      perform (SetTimeout recordSegment_cb 100) w
    else
      perform (SegmentResolved (process a)) w
  else
    let w := unlinkIfExists (segmentFile a) w in
    let w := update (set_isStreamAvailable false) w in
    let w := startStreamMonitoring w in
    perform (SegmentResolved (process a)) w.

(** The [error] listener of a recording attempt. *)
Definition onError (a : Attempt) (w : World) : World :=
  let w := update (set_isRecording false) w in
  let w := update (set_isStreamAvailable false) w in
  let w := startStreamMonitoring w in
  perform (SegmentResolved (process a)) w.

(** The interval callback up to its [await]. *)
Definition quickCheck (w : World) : World :=
  if isRecording (this w) then w
  else perform (CheckAvailability quickCheck_cb) w.

(** The interval callback from its [await] on. *)
Definition quickChecked (isAvailable : bool) (now : Z) (w : World)
  : World * option Attempt :=
  let wasAvailable := isStreamAvailable (this w) in
  let w := update (set_isStreamAvailable isAvailable) w in
  if isAvailable then
    let w := update (set_consecutiveFailures 0) w in
    let w := update (set_lastSuccessfulCheck (Some now)) w in
    if negb wasAvailable then resumeRecording now w else (w, None)
  else
    (update (fun r =>
               set_consecutiveFailures (consecutiveFailures r + 1) r) w,
     None).

(** The [close] listener of the ffprobe process. *)
Definition probeClose (code : option Z) (w : World) : World :=
  let w :=
    if code_is_zero code && negb (isStreamAvailable (this w))
    then perform (CheckAvailability verify_cb) w
    else w in
  perform (SetTimeout startContinuousMonitoring_cb 1000) w.

(** The continuation of the verification started by [probeClose]. *)
Definition probeVerified (isAvailable : bool) (now : Z) (w : World)
  : World * option Attempt :=
  if isAvailable && negb (isRecording (this w)) then
    resumeRecording now (update (set_isStreamAvailable true) w)
  else (w, None).

(** The [error] listener of the ffprobe process. *)
Definition probeError (w : World) : World :=
  perform (SetTimeout startContinuousMonitoring_cb 2000) w.

(** The timer callback that re-arms the deep probe. *)
Definition probeRearm (w : World) : World :=
  if isMonitoring (this w) && negb (isRecording (this w))
  then startContinuousMonitoring w
  else w.

Definition concatContent (l : list Recording) : string :=
  join JS.LF
       (map (fun recording =>
               "file '" +:+ path_resolve (file recording) +:+ "'") l).

(** [mergeRecordings] up to the point where its promise is returned. *)
Definition mergeRecordings (finalOutputName : string) (w : World)
  : World * MergeStart :=
  match recordings (this w) with
  | [] => (w, MergeThrew (Error "No recordings to merge"))
  | [only] =>
      let finalPath := path_join (outputDir (this w)) finalOutputName in
      match renameSync (file only) finalPath w with
      | inr w' => (w', MergeReturned finalPath)
      | inl e => (w, MergeThrew e)
      end
  | _ =>
      let finalPath := path_join (outputDir (this w)) finalOutputName in
      let concatFile :=
        path_join (outputDir (this w))
          ("concat_" +:+ pretty (sessionId (this w)) +:+ ".txt") in
      let w := update (fun r =>
                         set_recordings (sort_by_index (recordings r)) r) w in
      let w :=
        writeFileSync concatFile (concatContent (recordings (this w))) w in
      let '(pid, w) := spawn "ffmpeg" (mergeArgs concatFile finalPath) w in
      (w, MergeSpawned {| finalPath := finalPath;
                          concatFile := concatFile;
                          mergeProcess := pid |})
  end.

(** The [close] listener of the merge subprocess. *)
Definition mergeClose (m : Merge) (code : option Z) (w : World)
  : World * MergeEnd :=
  match unlinkSync (concatFile m) w with
  | inl e => (w, MergeUncaught e)
  | inr w =>
      let w :=
        foldl (fun w recording => unlinkIfExists (file recording) w)
              w (recordings (this w)) in
      if code_is_zero code then (w, MergeResolved (finalPath m))
      else
        (w, MergeRejected
              (Error ("Merge failed with code " +:+ show_code code)))
  end.

(** The [error] listener of the merge subprocess. *)
Definition mergeError (w : World) : World * MergeEnd :=
  (w, MergeRejected SpawnError).

(** [checkCompletion] inside [startRecording]; the second component is
    [Some] exactly when it called [mergeRecordings]. *)
Definition checkCompletion (finalOutput : string) (w : World)
  : World * option MergeStart :=
  if (totalDurationMs (this w) <=? recordedDurationMs (this w))
     && negb (isRecording (this w))
  then
    let w := stopStreamMonitoring w in
    let '(w, started) := mergeRecordings finalOutput w in
    match started with
    | MergeThrew e => (perform (Reject e) w, Some started)
    | MergeReturned _ => (perform (Resolve finalOutput) w, Some started)
    | MergeSpawned _ => (w, Some started)
    end
  else
    (perform (SetTimeout (checkCompletion_cb finalOutput) 1000) w, None).

(** [.then(() => resolve(finalOutput)).catch(reject)] on the promise of a
    merge that spawned. *)
Definition mergeSettled (finalOutput : string) (r : World * MergeEnd)
  : World :=
  match snd r with
  | MergeResolved _ => perform (Resolve finalOutput) (fst r)
  | MergeRejected e => perform (Reject e) (fst r)
  | MergeUncaught _ => fst r
  end.

(** [finalOutputName || `recording_${sessionId}.mp4`] *)
Definition finalOutputOf (finalOutputName : option string) (r : Recorder)
  : string :=
  match finalOutputName with
  | Some name =>
      if String.eqb name EmptyString then
        "recording_" +:+ pretty (sessionId r) +:+ ".mp4"
      else name
  | None => "recording_" +:+ pretty (sessionId r) +:+ ".mp4"
  end.

(** [startRecording] up to its first [await]. *)
Definition startRecording
    (durationMinutes : Z) (finalOutputName : option string) (now : Z)
    (w : World) : World :=
  let w := update (set_totalDurationMs (durationMinutes * 60 * 1000)) w in
  let w := update (set_recordedDurationMs 0) w in
  let w := update (set_recordings []) w in
  let w := update (set_startTime (Some now)) w in
  let finalOutput := finalOutputOf finalOutputName (this w) in
  perform (CheckAvailability (initialCheck_cb finalOutput)) w.

(** [startRecording] from the result of the initial check to its next
    suspension.  When [recordSegment] returns at once, or is not called,
    [checkCompletion] runs before any other callback. *)
Definition startRecordingChecked
    (finalOutput : string) (isInitiallyAvailable : bool) (now : Z)
    (w : World) : World * option Attempt :=
  let w := update (set_isStreamAvailable isInitiallyAvailable) w in
  if isInitiallyAvailable then
    match recordSegment now w with
    | (w, Some a) => (w, Some a)
    | (w, None) => (fst (checkCompletion finalOutput w), None)
    end
  else
    let w := startStreamMonitoring w in
    (fst (checkCompletion finalOutput w), None).

(** ** The event loop

    One event is one callback run to completion, with what its closure
    holds and what the outside supplies (exit codes, the clock, probe
    results).  [SubprocessWrites] is a subprocess writing a file. *)
Inductive Event :=
| StartRecording (durationMinutes : Z) (finalOutputName : option string)
                 (now : Z)
| InitialCheck (finalOutput : string) (isInitiallyAvailable : bool)
               (now : Z)
| CheckCompletion (finalOutput : string)
| QuickCheck
| QuickChecked (isAvailable : bool) (now : Z)
| ProbeClose (code : option Z)
| ProbeVerified (isAvailable : bool) (now : Z)
| ProbeError
| ProbeRearm
| NextSegment (now : Z)
| Close (a : Attempt) (code : option Z) (now : Z)
| SegmentError (a : Attempt)
| MergeClose (finalOutput : string) (m : Merge) (code : option Z)
| MergeError (finalOutput : string)
| Stop
| SubprocessWrites (path : string) (content : string).

Definition step (w : World) (ev : Event) : World :=
  match ev with
  | StartRecording durationMinutes finalOutputName now =>
      startRecording durationMinutes finalOutputName now w
  | InitialCheck finalOutput isInitiallyAvailable now =>
      fst (startRecordingChecked finalOutput isInitiallyAvailable now w)
  | CheckCompletion finalOutput => fst (checkCompletion finalOutput w)
  | QuickCheck => quickCheck w
  | QuickChecked isAvailable now => fst (quickChecked isAvailable now w)
  | ProbeClose code => probeClose code w
  | ProbeVerified isAvailable now => fst (probeVerified isAvailable now w)
  | ProbeError => probeError w
  | ProbeRearm => probeRearm w
  | NextSegment now => fst (recordSegment now w)
  | Close a code now => onClose a code now w
  | SegmentError a => onError a w
  | MergeClose finalOutput m code =>
      mergeSettled finalOutput (mergeClose m code w)
  | MergeError finalOutput => mergeSettled finalOutput (mergeError w)
  | Stop => stop w
  | SubprocessWrites path content => writeFileSync path content w
  end.

Definition run (w : World) (evs : list Event) : World := foldl step w evs.

(** The worlds a recorder can be in: those the event loop leads to from a
    newly constructed recorder. *)
Definition reachable (w : World) : Prop :=
  exists url dir now files evs, w = run (new_world url dir now files) evs.

(** ** How a capture attempt ends

    The outside decides how an attempt ends: the subprocess exits with a
    code after it wrote the destination file or wrote nothing, or it could
    not be spawned.  A subprocess that could not be spawned wrote nothing;
    Node then emits [error] and, after it, [close] with the negative error
    number as exit code (-2 for ENOENT), so both listeners run. *)
Inductive Outcome :=
| Exited (code : option Z) (written : option string) (elapsed : Z)
| SpawnFailed (errno : positive) (elapsed : Z).

Definition subprocessRan (a : Attempt) (o : Outcome) (w : World) : World :=
  match o with
  | Exited _ (Some content) _ => writeFileSync (segmentFile a) content w
  | _ => w
  end.

(** The listeners that run when the attempt ends. *)
Definition settle (a : Attempt) (o : Outcome) (w : World) : World :=
  match o with
  | Exited code _ elapsed => onClose a code (segmentStartTime a + elapsed) w
  | SpawnFailed errno elapsed =>
      onClose a (Some (Z.neg errno)) (segmentStartTime a + elapsed)
              (onError a w)
  end.

(** The condition of the [close] listener's first branch. *)
Definition retained (a : Attempt) (o : Outcome) (w : World) : bool :=
  match o with
  | Exited code _ _ => code_is_zero code && existsSync (segmentFile a) w
  | SpawnFailed errno _ =>
      code_is_zero (Some (Z.neg errno)) && existsSync (segmentFile a) w
  end.

(** ** The captures of a session

    [starts w ev] is the capture attempt that the callback [ev] creates in
    [w]: what [recordSegment] returns where the callback reaches it.
    Nothing in [recordSegment] looks at [isRecording], so a callback can
    start a capture while another one runs. *)
Definition starts (w : World) (ev : Event) : option Attempt :=
  match ev with
  | InitialCheck finalOutput isInitiallyAvailable now =>
      snd (startRecordingChecked finalOutput isInitiallyAvailable now w)
  | QuickChecked isAvailable now => snd (quickChecked isAvailable now w)
  | ProbeVerified isAvailable now => snd (probeVerified isAvailable now w)
  | NextSegment now => snd (recordSegment now w)
  | _ => None
  end.

(** The attempts created along a run, oldest first, each with the number
    of segments retained when it was created. *)
Fixpoint attempts (w : World) (evs : list Event) : list (nat * Attempt) :=
  match evs with
  | [] => []
  | ev :: evs' =>
      match starts w ev with
      | Some a => [(length (recordings (this w)), a)]
      | None => []
      end ++ attempts (step w ev) evs'
  end.

(** The captures whose subprocess has not closed, after [ev]. *)
Definition running_after
    (running : list Attempt) (w : World) (ev : Event) : list Attempt :=
  match ev with
  | Close a _ _ => closed a running
  | _ => running ++ option_list (starts w ev)
  end.

(** What the event loop can deliver within one session: [startRecording]
    is not called again, and an [error] or [close] event is that of a
    capture that was spawned and has not closed (a subprocess emits
    [close] once, and nothing after it). *)
Definition allowed (running : list Attempt) (ev : Event) : bool :=
  match ev with
  | StartRecording _ _ _ => false
  | Close a _ _ => is_running a running
  | SegmentError a => is_running a running
  | _ => true
  end.

Fixpoint one_session
    (running : list Attempt) (w : World) (evs : list Event) : bool :=
  match evs with
  | [] => true
  | ev :: evs' =>
      allowed running ev
      && one_session (running_after running w ev) (step w ev) evs'
  end.

(** No capture is started while another one runs. *)
Definition starts_idle
    (running : list Attempt) (w : World) (ev : Event) : bool :=
  match starts w ev, running with
  | Some _, _ :: _ => false
  | _, _ => true
  end.

Fixpoint one_at_a_time
    (running : list Attempt) (w : World) (evs : list Event) : bool :=
  match evs with
  | [] => true
  | ev :: evs' =>
      starts_idle running w ev
      && one_at_a_time (running_after running w ev) (step w ev) evs'
  end.

(** What holds of the captures and the retained segments throughout a
    session of the recorder [r0]: a running capture has an index no
    greater than the number of retained segments, a retained segment an
    index below it, and both are named after their index. *)
Definition indexed (r0 : Recorder) (running : list Attempt) (w : World)
  : Prop :=
  outputDir (this w) = outputDir r0
  /\ sessionId (this w) = sessionId r0
  /\ Forall (fun a =>
               (segmentIndex a <= length (recordings (this w)))%nat
               /\ segmentFile a = segmentPath r0 (segmentIndex a)) running
  /\ Forall (fun r =>
               (index r < length (recordings (this w)))%nat
               /\ file r = segmentPath r0 (index r)) (recordings (this w)).

(** What holds as long as no capture is started while another one runs:
    the retained segments carry 0, 1, 2, ... in order, and the capture
    that runs, if any, has the next index. *)
Definition in_order (running : list Attempt) (w : World) : Prop :=
  map index (recordings (this w)) = seq 0 (length (recordings (this w)))
  /\ Forall (fun a => segmentIndex a = length (recordings (this w))) running
  /\ (length running <= 1)%nat.

(** ** Properties of the recorder *)

(** *** Merging *)

Lemma merge_failed_is_not_empty_input (code : option Z) :
  Error "No recordings to merge"
  ≠ Error ("Merge failed with code " +:+ show_code code).
Proof. intros H. inversion H. Qed.

(** C7: [mergeRecordings] on an empty list throws the error "No recordings
    to merge", which no failed merge produces, and leaves the world as it
    was: nothing written, created or deleted, nothing spawned. *)
Theorem mergeRecordings_empty (finalOutputName : string) (w : World) :
  recordings (this w) = [] ->
  mergeRecordings finalOutputName w
    = (w, MergeThrew (Error "No recordings to merge"))
  /\ (forall code,
        Error "No recordings to merge"
        ≠ Error ("Merge failed with code " +:+ show_code code))
  /\ Error "No recordings to merge" ≠ SpawnError.
Proof.
  intros Hempty. unfold mergeRecordings. rewrite Hempty.
  split; [reflexivity|].
  split; [apply merge_failed_is_not_empty_input | discriminate].
Qed.

(** C8: [mergeRecordings] on a list of one segment whose file exists moves
    that file to the final path and returns the path; the final path then
    holds the bytes the segment held, and no subprocess was spawned. *)
Theorem mergeRecordings_single
    (finalOutputName : string) (w : World) (only : Recording)
    (content : string) :
  recordings (this w) = [only] ->
  fs w !! file only = Some content ->
  exists w',
    mergeRecordings finalOutputName w
      = (w', MergeReturned (path_join (outputDir (this w)) finalOutputName))
    /\ fs w' !! path_join (outputDir (this w)) finalOutputName = Some content
    /\ fs w' = <[path_join (outputDir (this w)) finalOutputName := content]>
                 (delete (file only) (fs w))
    /\ actions w' = actions w
    /\ this w' = this w.
Proof.
  intros Hone Hfile. unfold mergeRecordings, renameSync.
  rewrite Hone, Hfile. eexists. split; [reflexivity|]. cbn.
  split; [apply lookup_insert_eq|]. auto.
Qed.

(** A single-segment merge whose file is gone throws and changes nothing. *)
Lemma mergeRecordings_single_missing
    (finalOutputName : string) (w : World) (only : Recording) :
  recordings (this w) = [only] ->
  fs w !! file only = None ->
  mergeRecordings finalOutputName w
    = (w, MergeThrew (ErrnoException "rename" (file only))).
Proof.
  intros Hone Hfile. unfold mergeRecordings, renameSync.
  now rewrite Hone, Hfile.
Qed.

(** *** Monitoring *)

Lemma unlinkIfExists_this (p : string) (w : World) :
  this (unlinkIfExists p w) = this w
  /\ actions (unlinkIfExists p w) = actions w
  /\ nextHandle (unlinkIfExists p w) = nextHandle w.
Proof.
  unfold unlinkIfExists, existsSync, unlinkSync.
  destruct (fs w !! p); cbn; auto.
Qed.

Lemma unlinkIfExists_gone (p : string) (w : World) :
  fs (unlinkIfExists p w) !! p = None.
Proof.
  unfold unlinkIfExists, existsSync, unlinkSync.
  destruct (fs w !! p) eqn:Hp; cbn; [apply lookup_delete_eq | exact Hp].
Qed.

Lemma unlinkIfExists_other (p q : string) (w : World) :
  p <> q -> fs (unlinkIfExists p w) !! q = fs w !! q.
Proof.
  intros Hne. unfold unlinkIfExists, existsSync, unlinkSync.
  destruct (fs w !! p); cbn; [now apply lookup_delete_ne | reflexivity].
Qed.

Lemma stopStreamMonitoring_off (w : World) :
  isMonitoring (this (stopStreamMonitoring w)) = false
  /\ quickCheckInterval (this (stopStreamMonitoring w)) = None.
Proof.
  unfold stopStreamMonitoring. cbn.
  destruct (quickCheckInterval (this w)) eqn:Hq; cbn; auto.
Qed.

Lemma stopStreamMonitoring_frame (w : World) :
  recordings (this (stopStreamMonitoring w)) = recordings (this w)
  /\ recordedDurationMs (this (stopStreamMonitoring w))
     = recordedDurationMs (this w)
  /\ totalDurationMs (this (stopStreamMonitoring w))
     = totalDurationMs (this w)
  /\ isRecording (this (stopStreamMonitoring w)) = isRecording (this w)
  /\ currentProcess (this (stopStreamMonitoring w))
     = currentProcess (this w)
  /\ fs (stopStreamMonitoring w) = fs w.
Proof.
  unfold stopStreamMonitoring. cbn.
  destruct (quickCheckInterval (this w)); cbn; repeat split.
Qed.

(** With monitoring off and no recording in progress,
    [startStreamMonitoring] arms the two-second interval and spawns the
    deep probe. *)
Lemma startStreamMonitoring_starts (w : World) :
  isMonitoring (this w) = false ->
  isRecording (this w) = false ->
  startStreamMonitoring w
  = {| this :=
         set_quickCheckInterval (Some (nextHandle w))
           (set_isMonitoring true (this w));
       fs := fs w;
       actions :=
         (actions w ++ [SetInterval (nextHandle w) 2000])
           ++ [Spawn (S (nextHandle w)) "ffprobe"
                     (ffprobeArgs (streamUrl (this w)))];
       nextHandle := S (S (nextHandle w)) |}.
Proof.
  intros Hm Hr. unfold startStreamMonitoring. rewrite Hm. cbn.
  unfold startContinuousMonitoring. cbn. rewrite Hr. reflexivity.
Qed.

Lemma startStreamMonitoring_on (w : World) :
  isMonitoring (this (startStreamMonitoring w)) = true.
Proof.
  unfold startStreamMonitoring, startContinuousMonitoring.
  destruct (isMonitoring (this w)) eqn:Hm; [exact Hm|]. cbn.
  destruct (isRecording (this w)); reflexivity.
Qed.

Lemma startStreamMonitoring_frame (w : World) :
  recordings (this (startStreamMonitoring w)) = recordings (this w)
  /\ recordedDurationMs (this (startStreamMonitoring w))
     = recordedDurationMs (this w)
  /\ totalDurationMs (this (startStreamMonitoring w))
     = totalDurationMs (this w)
  /\ isRecording (this (startStreamMonitoring w)) = isRecording (this w)
  /\ currentProcess (this (startStreamMonitoring w))
     = currentProcess (this w)
  /\ fs (startStreamMonitoring w) = fs w.
Proof.
  unfold startStreamMonitoring, startContinuousMonitoring.
  destruct (isMonitoring (this w)); [repeat split|]. cbn.
  destruct (isRecording (this w)) eqn:Hr; cbn; repeat split; auto.
Qed.

(** *** How a recording attempt ends *)

(** The [close] listener appends the segment exactly when the exit code is
    0 and the destination file exists; the time the subprocess ran only
    becomes the duration of the segment. *)
Lemma onClose_recordings
    (a : Attempt) (code : option Z) (now : Z) (w : World) :
  recordings (this (onClose a code now w))
  = if code_is_zero code && existsSync (segmentFile a) w
    then recordings (this w)
           ++ [{| file := segmentFile a;
                  duration := now - segmentStartTime a;
                  index := segmentIndex a |}]
    else recordings (this w).
Proof.
  unfold onClose.
  replace (existsSync (segmentFile a) (update (set_isRecording false) w))
    with (existsSync (segmentFile a) w) by reflexivity.
  destruct (code_is_zero code && existsSync (segmentFile a) w).
  - cbn. destruct (_ <? _); reflexivity.
  - cbn.
    destruct (startStreamMonitoring_frame
                (update (set_isStreamAvailable false)
                   (unlinkIfExists (segmentFile a)
                      (update (set_isRecording false) w))))
      as (Hrec & _).
    rewrite Hrec. cbn.
    destruct (unlinkIfExists_this (segmentFile a)
                (update (set_isRecording false) w)) as (Hthis & _).
    rewrite Hthis. reflexivity.
Qed.

Lemma onClose_recordedDurationMs
    (a : Attempt) (code : option Z) (now : Z) (w : World) :
  recordedDurationMs (this (onClose a code now w))
  = if code_is_zero code && existsSync (segmentFile a) w
    then recordedDurationMs (this w) + (now - segmentStartTime a)
    else recordedDurationMs (this w).
Proof.
  unfold onClose.
  replace (existsSync (segmentFile a) (update (set_isRecording false) w))
    with (existsSync (segmentFile a) w) by reflexivity.
  destruct (code_is_zero code && existsSync (segmentFile a) w).
  - cbn. destruct (_ <? _); reflexivity.
  - cbn.
    destruct (startStreamMonitoring_frame
                (update (set_isStreamAvailable false)
                   (unlinkIfExists (segmentFile a)
                      (update (set_isRecording false) w))))
      as (_ & Hrec & _).
    rewrite Hrec. cbn.
    destruct (unlinkIfExists_this (segmentFile a)
                (update (set_isRecording false) w)) as (Hthis & _).
    rewrite Hthis. reflexivity.
Qed.

Lemma onError_frame (a : Attempt) (w : World) :
  recordings (this (onError a w)) = recordings (this w)
  /\ recordedDurationMs (this (onError a w)) = recordedDurationMs (this w)
  /\ fs (onError a w) = fs w
  /\ isMonitoring (this (onError a w)) = true.
Proof.
  unfold onError. cbn.
  destruct (startStreamMonitoring_frame
              (update (set_isStreamAvailable false)
                 (update (set_isRecording false) w)))
    as (H1 & H2 & _ & _ & _ & H3).
  rewrite H1, H2, H3, startStreamMonitoring_on. auto.
Qed.

(** C4: an attempt that ends in failure (exit code other than 0, file
    missing, or spawn error) leaves the segment list and the recorded
    duration as they were, leaves no file at the destination and ends with
    monitoring on; where monitoring was off, the two-second interval is
    armed and the deep probe spawned.  The [close] listener deletes the
    file before it resolves.  After a spawn error the [error] listener
    resolves first, with monitoring on and the file system as the attempt
    found it (the subprocess wrote nothing), and the [close] listener that
    follows removes what is at the destination. *)
Theorem failed_attempt_is_discarded
    (a : Attempt) (o : Outcome) (w : World) :
  retained a o (subprocessRan a o w) = false ->
  let w' := settle a o (subprocessRan a o w) in
  recordings (this w') = recordings (this w)
  /\ recordedDurationMs (this w') = recordedDurationMs (this w)
  /\ fs w' !! segmentFile a = None
  /\ isMonitoring (this w') = true
  /\ (isMonitoring (this w) = false ->
      quickCheckInterval (this w') = Some (nextHandle w)
      /\ SetInterval (nextHandle w) 2000 ∈ actions w'
      /\ Spawn (S (nextHandle w)) "ffprobe"
               (ffprobeArgs (streamUrl (this w))) ∈ actions w')
  /\ (exists w1,
        w' = perform (SegmentResolved (process a)) w1
        /\ fs w1 !! segmentFile a = None
        /\ isMonitoring (this w1) = true)
  /\ match o with
     | Exited _ _ _ => True
     | SpawnFailed _ _ =>
         last (actions (onError a w)) = Some (SegmentResolved (process a))
         /\ fs (onError a w) = fs w
         /\ isMonitoring (this (onError a w)) = true
     end.
Proof.
  intros Hfail w'. subst w'.
  assert (Hclose :
            forall code now w1,
              code_is_zero code && existsSync (segmentFile a) w1 = false ->
              recordings (this (onClose a code now w1))
              = recordings (this w1)
              /\ recordedDurationMs (this (onClose a code now w1))
                 = recordedDurationMs (this w1)
              /\ fs (onClose a code now w1) !! segmentFile a = None
              /\ isMonitoring (this (onClose a code now w1)) = true
              /\ (isMonitoring (this w1) = false ->
                  quickCheckInterval (this (onClose a code now w1))
                  = Some (nextHandle w1)
                  /\ SetInterval (nextHandle w1) 2000
                       ∈ actions (onClose a code now w1)
                  /\ Spawn (S (nextHandle w1)) "ffprobe"
                           (ffprobeArgs (streamUrl (this w1)))
                       ∈ actions (onClose a code now w1))
              /\ (isMonitoring (this w1) = true ->
                  quickCheckInterval (this (onClose a code now w1))
                  = quickCheckInterval (this w1)
                  /\ forall act, act ∈ actions w1 ->
                                 act ∈ actions (onClose a code now w1))
              /\ exists w2,
                   onClose a code now w1
                   = perform (SegmentResolved (process a)) w2
                   /\ fs w2 !! segmentFile a = None
                   /\ isMonitoring (this w2) = true).
  { intros code now w1 Hfailed.
    split; [rewrite onClose_recordings, Hfailed; reflexivity|].
    split; [rewrite onClose_recordedDurationMs, Hfailed; reflexivity|].
    unfold onClose.
    replace (existsSync (segmentFile a) (update (set_isRecording false) w1))
      with (existsSync (segmentFile a) w1) by reflexivity.
    rewrite Hfailed.
    remember (update (set_isStreamAvailable false)
                (unlinkIfExists (segmentFile a)
                   (update (set_isRecording false) w1))) as w2 eqn:Hw2.
    destruct (unlinkIfExists_this (segmentFile a)
                (update (set_isRecording false) w1)) as (Hu1 & Hu2 & Hu3).
    assert (Hgone : fs (startStreamMonitoring w2) !! segmentFile a = None).
    { destruct (startStreamMonitoring_frame w2) as (_&_&_&_&_&Hfs).
      rewrite Hfs, Hw2. cbn. apply unlinkIfExists_gone. }
    split; [exact Hgone|].
    split; [cbn; apply startStreamMonitoring_on|].
    split; [|split].
    - intros Hoff.
      rewrite (startStreamMonitoring_starts w2)
        by (rewrite Hw2; cbn; rewrite Hu1; cbn; auto).
      rewrite Hw2. cbn. rewrite Hu1, Hu2, Hu3. cbn.
      split; [reflexivity|].
      rewrite !elem_of_app, !list_elem_of_singleton. auto.
    - intros Hon. unfold startStreamMonitoring.
      replace (isMonitoring (this w2)) with true
        by (rewrite Hw2; cbn; rewrite Hu1; cbn; auto).
      rewrite Hw2. cbn. rewrite Hu1, Hu2. cbn.
      split; [reflexivity|].
      intros act Hact. rewrite elem_of_app. now left.
    - exists (startStreamMonitoring w2).
      split; [reflexivity|]. split; [exact Hgone|].
      apply startStreamMonitoring_on. }
  destruct o as [code written elapsed|errno elapsed]; cbn [settle retained] in *.
  - remember (subprocessRan a (Exited code written elapsed) w) as w1
      eqn:Hw1.
    assert (Hthis : this w1 = this w)
      by (rewrite Hw1; cbn; destruct written; reflexivity).
    assert (Hact : actions w1 = actions w)
      by (rewrite Hw1; cbn; destruct written; reflexivity).
    assert (Hnh : nextHandle w1 = nextHandle w)
      by (rewrite Hw1; cbn; destruct written; reflexivity).
    clear Hw1.
    destruct (Hclose code (segmentStartTime a + elapsed) w1 Hfail)
      as (H1 & H2 & H3 & H4 & H5 & _ & H6).
    rewrite Hthis, ?Hnh in *.
    repeat (split; [assumption|]). exact I.
  - cbn [subprocessRan].
    destruct (onError_frame a w) as (E1 & E2 & E3 & E4).
    destruct (Hclose (Some (Z.neg errno)) (segmentStartTime a + elapsed)
                (onError a w) eq_refl)
      as (H1 & H2 & H3 & H4 & _ & H5 & H6).
    destruct (H5 E4) as [Hq Hkeep].
    split; [now rewrite H1|]. split; [now rewrite H2|].
    split; [exact H3|]. split; [exact H4|]. split.
    + intros Hoff. rewrite Hq.
      assert (Herr :
                quickCheckInterval (this (onError a w))
                = Some (nextHandle w)
                /\ SetInterval (nextHandle w) 2000 ∈ actions (onError a w)
                /\ Spawn (S (nextHandle w)) "ffprobe"
                         (ffprobeArgs (streamUrl (this w)))
                     ∈ actions (onError a w)).
      { unfold onError.
        rewrite startStreamMonitoring_starts by (cbn; auto).
        cbn. split; [reflexivity|].
        rewrite !elem_of_app, !list_elem_of_singleton. auto. }
      destruct Herr as (Hi & Hs & Hp). auto.
    + split; [exact H6|].
      split; [unfold onError; cbn; apply last_snoc|]. auto.
Qed.

(** Every input of a merge is gone once the [close] listener has run its
    clean-up, whatever the exit code. *)
Lemma unlink_all_this (l : list Recording) (w : World) :
  this (foldl (fun w recording => unlinkIfExists (file recording) w) w l)
  = this w.
Proof.
  revert w. induction l as [|r l IH]; intros w; [reflexivity|].
  cbn. rewrite IH. apply unlinkIfExists_this.
Qed.

Lemma unlink_all_keeps_gone (l : list Recording) (w : World) (p : string) :
  fs w !! p = None ->
  fs (foldl (fun w recording => unlinkIfExists (file recording) w) w l) !! p
  = None.
Proof.
  revert w. induction l as [|r l IH]; intros w Hp; [exact Hp|].
  cbn. apply IH. destruct (decide (file r = p)) as [->|Hne].
  - apply unlinkIfExists_gone.
  - rewrite unlinkIfExists_other; auto.
Qed.

Lemma unlink_all_gone (l : list Recording) (w : World) (r : Recording) :
  r ∈ l ->
  fs (foldl (fun w recording => unlinkIfExists (file recording) w) w l)
     !! file r = None.
Proof.
  revert w. induction l as [|x l IH]; intros w Hin.
  - inversion Hin.
  - cbn. apply elem_of_cons in Hin as [->|Hin].
    + apply unlink_all_keeps_gone, unlinkIfExists_gone.
    + now apply IH.
Qed.

(** C1 (what the code does): when the merge subprocess exits with a code
    other than 0 and the manifest is in place, the [close] listener rejects
    with "Merge failed with code ...", and by then it has deleted the
    manifest and every input segment file. *)
Theorem mergeClose_failure_deletes_inputs
    (m : Merge) (code : option Z) (w : World) :
  is_Some (fs w !! concatFile m) ->
  code_is_zero code = false ->
  exists w',
    mergeClose m code w
    = (w', MergeRejected
             (Error ("Merge failed with code " +:+ show_code code)))
    /\ this w' = this w
    /\ forall r, r ∈ recordings (this w) -> fs w' !! file r = None.
Proof.
  intros [manifest Hm] Hcode. unfold mergeClose, unlinkSync.
  rewrite Hm, Hcode. eexists. split; [reflexivity|]. cbn.
  split; [now rewrite unlink_all_this|].
  intros r Hr. apply unlink_all_gone. exact Hr.
Qed.

(** A merge that cannot be spawned rejects and deletes nothing. *)
Lemma mergeError_keeps_inputs (w : World) :
  mergeError w = (w, MergeRejected SpawnError).
Proof. reflexivity. Qed.

(** *** Stopping *)

(** What [stop] does: monitoring is switched off and the interval
    cleared, the process on record is sent SIGTERM, and neither the
    segments nor the files are touched, and nothing is spawned. *)
Lemma stop_effects (w : World) :
  isMonitoring (this (stop w)) = false
  /\ quickCheckInterval (this (stop w)) = None
  /\ recordings (this (stop w)) = recordings (this w)
  /\ fs (stop w) = fs w
  /\ nextHandle (stop w) = nextHandle w
  /\ (forall pid,
        currentProcess (this w) = Some pid ->
        isRecording (this (stop w)) = false
        /\ last (actions (stop w)) = Some (Kill pid "SIGTERM"))
  /\ forall pid command args,
       Spawn pid command args ∈ actions (stop w) ->
       Spawn pid command args ∈ actions w.
Proof.
  unfold stop, stopStreamMonitoring. cbn.
  destruct (quickCheckInterval (this w)) as [id|] eqn:Hq; cbn;
    destruct (currentProcess (this w)) as [p|] eqn:Hp; cbn;
    rewrite ?Hq; (do 5 (split; [reflexivity|])); split.
  all: try (intros pid Hpid; inversion Hpid; subst; split;
            [reflexivity | apply last_snoc]).
  all: try (intros pid Hpid; discriminate).
  all: intros pid command args Hin;
    repeat (apply elem_of_app in Hin as [Hin|Hin];
            [|apply list_elem_of_singleton in Hin; discriminate]);
    exact Hin.
Qed.

Lemma stop_keeps_durations (w : World) :
  totalDurationMs (this (stop w)) = totalDurationMs (this w)
  /\ recordedDurationMs (this (stop w)) = recordedDurationMs (this w).
Proof.
  unfold stop, stopStreamMonitoring. cbn.
  destruct (quickCheckInterval (this w)); cbn;
    destruct (currentProcess (this w)); cbn; auto.
Qed.

(** Right after [stop] neither loop goes on: the interval is cleared, and
    the timer callback of the deep probe does not spawn another probe. *)
Lemma stop_halts_loops (w : World) :
  quickCheckInterval (this (stop w)) = None
  /\ probeRearm (stop w) = stop w.
Proof.
  destruct (stop_effects w) as (Hm & Hq & _).
  split; [exact Hq|]. unfold probeRearm. now rewrite Hm.
Qed.

(** C6 (what the code does): when the process that [stop] signalled
    closes without a retained segment, its [close] listener switches
    monitoring back on: the interval is armed again and a deep probe is
    spawned. *)
Theorem stop_does_not_last
    (a : Attempt) (code : option Z) (now : Z) (w : World) :
  code_is_zero code && existsSync (segmentFile a) w = false ->
  let w' := onClose a code now (stop w) in
  isMonitoring (this (stop w)) = false
  /\ quickCheckInterval (this (stop w)) = None
  /\ isMonitoring (this w') = true
  /\ quickCheckInterval (this w') = Some (nextHandle w)
  /\ actions w'
     = actions (stop w)
         ++ [SetInterval (nextHandle w) 2000;
             Spawn (S (nextHandle w)) "ffprobe"
                   (ffprobeArgs (streamUrl (this w)));
             SegmentResolved (process a)].
Proof.
  intros Hfail w'. subst w'.
  destruct (stop_effects w) as (Hm & Hq & _ & Hfs & Hnh & _).
  split; [exact Hm|]. split; [exact Hq|].
  unfold onClose.
  replace (existsSync (segmentFile a) (update (set_isRecording false) (stop w)))
    with (existsSync (segmentFile a) w)
    by (unfold existsSync; cbn; now rewrite Hfs).
  rewrite Hfail.
  destruct (unlinkIfExists_this (segmentFile a)
              (update (set_isRecording false) (stop w)))
    as (Hu1 & Hu2 & Hu3).
  rewrite startStreamMonitoring_starts
    by (cbn; rewrite Hu1; cbn; auto).
  cbn. rewrite Hu1, Hu2, Hu3. cbn. rewrite Hnh.
  split; [reflexivity|]. split; [reflexivity|].
  rewrite <- !app_assoc. cbn.
  replace (streamUrl (this (stop w))) with (streamUrl (this w)); [reflexivity|].
  unfold stop, stopStreamMonitoring. cbn.
  destruct (quickCheckInterval (this w)); cbn;
    destruct (currentProcess (this w)); reflexivity.
Qed.

(** *** Starting a capture *)

Lemma recordSegment_started (now : Z) (w w' : World) (a : Attempt) :
  recordSegment now w = (w', Some a) ->
  recordedDurationMs (this w) < totalDurationMs (this w)
  /\ segmentIndex a = length (recordings (this w))
  /\ segmentFile a = segmentPath (this w) (length (recordings (this w)))
  /\ segmentStartTime a = now
  /\ process a = nextHandle w
  /\ recordings (this w') = recordings (this w)
  /\ recordedDurationMs (this w') = recordedDurationMs (this w)
  /\ totalDurationMs (this w') = totalDurationMs (this w)
  /\ isMonitoring (this w') = isMonitoring (this w)
  /\ fs w' = fs w
  /\ actions w'
     = actions w
         ++ [Spawn (nextHandle w) "ffmpeg"
               (ffmpegArgs (streamUrl (this w))
                  (totalDurationMs (this w) - recordedDurationMs (this w))
                  (segmentFile a))].
Proof.
  unfold recordSegment.
  destruct (totalDurationMs (this w) <=? recordedDurationMs (this w))
    eqn:Hdone; [discriminate|].
  cbn. intros Heq. inversion Heq; subst; clear Heq. cbn.
  apply Z.leb_gt in Hdone. repeat split; auto.
Qed.

Lemma recordSegment_complete (now : Z) (w : World) :
  totalDurationMs (this w) <= recordedDurationMs (this w) ->
  recordSegment now w = (w, None).
Proof.
  intros Hdone. unfold recordSegment.
  apply Z.leb_le in Hdone. now rewrite Hdone.
Qed.

Lemma recordSegment_not_started (now : Z) (w w' : World) :
  recordSegment now w = (w', None) -> w' = w.
Proof.
  unfold recordSegment.
  destruct (totalDurationMs (this w) <=? recordedDurationMs (this w));
    cbn; intros Heq; inversion Heq. reflexivity.
Qed.

Lemma resumeRecording_complete (now : Z) (w : World) :
  totalDurationMs (this w) <= recordedDurationMs (this w) ->
  resumeRecording now w = (w, None).
Proof.
  intros Hdone. unfold resumeRecording.
  apply Z.leb_le in Hdone. rewrite Hdone. now destruct (isRecording _).
Qed.

Lemma resumeRecording_started (now : Z) (w w' : World) (a : Attempt) :
  resumeRecording now w = (w', Some a) ->
  segmentIndex a = length (recordings (this w))
  /\ recordings (this w') = recordings (this w)
  /\ recordedDurationMs (this w') = recordedDurationMs (this w)
  /\ totalDurationMs (this w') = totalDurationMs (this w).
Proof.
  unfold resumeRecording.
  destruct (isRecording (this w)); [discriminate|].
  destruct (totalDurationMs (this w) <=? recordedDurationMs (this w));
    [discriminate|].
  intros Hstart. apply recordSegment_started in Hstart.
  destruct (stopStreamMonitoring_frame w) as (H1 & H2 & H3 & _).
  rewrite H1, H2, H3 in Hstart. tauto.
Qed.

Lemma resumeRecording_not_started (now : Z) (w w' : World) :
  resumeRecording now w = (w', None) ->
  recordings (this w') = recordings (this w)
  /\ recordedDurationMs (this w') = recordedDurationMs (this w)
  /\ totalDurationMs (this w') = totalDurationMs (this w).
Proof.
  unfold resumeRecording.
  destruct (isRecording (this w)); [intros Heq; now inversion Heq|].
  destruct (totalDurationMs (this w) <=? recordedDurationMs (this w));
    [intros Heq; now inversion Heq|].
  intros Hnone. apply recordSegment_not_started in Hnone. subst w'.
  destruct (stopStreamMonitoring_frame w) as (H1 & H2 & H3 & _). auto.
Qed.

(** Whether or not it starts an attempt, [resumeRecording] leaves the
    segments and both durations alone. *)
Lemma resumeRecording_ledger (now : Z) (w : World) :
  recordings (this (fst (resumeRecording now w))) = recordings (this w)
  /\ recordedDurationMs (this (fst (resumeRecording now w)))
     = recordedDurationMs (this w)
  /\ totalDurationMs (this (fst (resumeRecording now w)))
     = totalDurationMs (this w).
Proof.
  destruct (resumeRecording now w) as [w' [a|]] eqn:Heq; cbn.
  - apply resumeRecording_started in Heq. tauto.
  - now apply resumeRecording_not_started in Heq.
Qed.

(** *** The recorded duration and the target *)

Lemma sum_durations_app (l1 l2 : list Recording) :
  sum_durations (l1 ++ l2) = sum_durations l1 + sum_durations l2.
Proof.
  induction l1 as [|r l1 IH]; cbn; [reflexivity|].
  fold (sum_durations (l1 ++ l2)) (sum_durations l1). lia.
Qed.

Lemma sum_durations_insert (r : Recording) (l : list Recording) :
  sum_durations (insert_by_index r l) = duration r + sum_durations l.
Proof.
  induction l as [|x l IH]; cbn; [reflexivity|].
  destruct (index r <=? index x)%nat; cbn; [reflexivity|].
  fold (sum_durations (insert_by_index r l)) (sum_durations l). lia.
Qed.

(** Sorting the segments for the manifest keeps their total duration. *)
Lemma sum_durations_sort (l : list Recording) :
  sum_durations (sort_by_index l) = sum_durations l.
Proof.
  induction l as [|r l IH]; cbn; [reflexivity|].
  fold (sort_by_index l) (sum_durations l).
  now rewrite sum_durations_insert, IH.
Qed.

(** The recorded duration is the sum of the durations of the retained
    segments. *)
Definition ledger_balanced (w : World) : Prop :=
  recordedDurationMs (this w) = sum_durations (recordings (this w)).

Lemma mergeRecordings_balanced (finalOutputName : string) (w : World) :
  ledger_balanced w ->
  ledger_balanced (fst (mergeRecordings finalOutputName w)).
Proof.
  unfold ledger_balanced, mergeRecordings. intros Hw.
  destruct (recordings (this w)) as [|r1 [|r2 l]] eqn:Hrec.
  - cbn. now rewrite Hrec.
  - unfold renameSync. destruct (fs w !! file r1); cbn; now rewrite Hrec.
  - cbn. rewrite Hrec. rewrite Hw.
    symmetry. apply (sum_durations_sort (r1 :: r2 :: l)).
Qed.

Lemma checkCompletion_balanced (finalOutput : string) (w : World) :
  ledger_balanced w -> ledger_balanced (fst (checkCompletion finalOutput w)).
Proof.
  intros Hw. unfold checkCompletion.
  destruct ((totalDurationMs (this w) <=? recordedDurationMs (this w))
            && negb (isRecording (this w))); [|exact Hw].
  assert (Hs : ledger_balanced (stopStreamMonitoring w)).
  { unfold ledger_balanced.
    destruct (stopStreamMonitoring_frame w) as (H1 & H2 & _).
    now rewrite H1, H2. }
  apply (mergeRecordings_balanced finalOutput) in Hs.
  destruct (mergeRecordings finalOutput (stopStreamMonitoring w))
    as [w' [e|path|m]]; exact Hs.
Qed.

Lemma recordSegment_balanced (now : Z) (w : World) :
  ledger_balanced w -> ledger_balanced (fst (recordSegment now w)).
Proof.
  intros Hw. destruct (recordSegment now w) as [w' [a|]] eqn:Heq; cbn.
  - apply recordSegment_started in Heq
      as (_ & _ & _ & _ & _ & H1 & H2 & _).
    unfold ledger_balanced. now rewrite H1, H2.
  - apply recordSegment_not_started in Heq. now subst.
Qed.

Lemma resumeRecording_balanced (now : Z) (w : World) :
  ledger_balanced w -> ledger_balanced (fst (resumeRecording now w)).
Proof.
  intros Hw. unfold ledger_balanced.
  destruct (resumeRecording_ledger now w) as (H1 & H2 & _).
  now rewrite H1, H2.
Qed.

Lemma onClose_balanced (a : Attempt) (code : option Z) (now : Z) (w : World) :
  ledger_balanced w -> ledger_balanced (onClose a code now w).
Proof.
  unfold ledger_balanced. intros Hw.
  rewrite onClose_recordings, onClose_recordedDurationMs.
  destruct (code_is_zero code && existsSync (segmentFile a) w); [|exact Hw].
  rewrite sum_durations_app, Hw. cbn. lia.
Qed.

Lemma step_balanced (w : World) (ev : Event) :
  ledger_balanced w -> ledger_balanced (step w ev).
Proof.
  intros Hw. destruct ev; cbn [step].
  - reflexivity.
  - unfold startRecordingChecked.
    destruct isInitiallyAvailable.
    + pose proof (recordSegment_balanced now
                    (update (set_isStreamAvailable true) w) Hw) as Hr.
      destruct (recordSegment now (update (set_isStreamAvailable true) w))
        as [w' [a|]]; cbn [fst] in *; [exact Hr|].
      now apply checkCompletion_balanced.
    + cbn [fst]. apply checkCompletion_balanced. unfold ledger_balanced.
      destruct (startStreamMonitoring_frame
                  (update (set_isStreamAvailable false) w))
        as (H1 & H2 & _).
      now rewrite H1, H2.
  - now apply checkCompletion_balanced.
  - unfold quickCheck. now destruct (isRecording (this w)).
  - unfold quickChecked. destruct isAvailable; [|exact Hw].
    destruct (negb (isStreamAvailable (this w))); [|exact Hw].
    now apply resumeRecording_balanced.
  - unfold probeClose.
    now destruct (code_is_zero code && negb (isStreamAvailable (this w))).
  - unfold probeVerified.
    destruct (isAvailable && negb (isRecording (this w))); [|exact Hw].
    now apply resumeRecording_balanced.
  - exact Hw.
  - unfold probeRearm, startContinuousMonitoring.
    destruct (isMonitoring (this w) && negb (isRecording (this w)));
      [|exact Hw].
    now destruct (negb (isMonitoring (this w)) || isRecording (this w)).
  - now apply recordSegment_balanced.
  - now apply onClose_balanced.
  - unfold ledger_balanced.
    destruct (onError_frame a w) as (H1 & H2 & _). now rewrite H1, H2.
  - unfold mergeSettled, mergeClose, unlinkSync.
    destruct (fs w !! concatFile m); cbn [fst snd]; [|exact Hw].
    assert (ledger_balanced
              (foldl (fun w recording => unlinkIfExists (file recording) w)
                     (set_fs (delete (concatFile m) (fs w)) w)
                     (recordings
                        (this (set_fs (delete (concatFile m) (fs w)) w)))))
      by (unfold ledger_balanced; now rewrite unlink_all_this).
    now destruct (code_is_zero code).
  - exact Hw.
  - unfold ledger_balanced.
    destruct (stop_effects w) as (_ & _ & H1 & _).
    destruct (stop_keeps_durations w) as (_ & H2).
    now rewrite H1, H2.
  - exact Hw.
Qed.

Lemma run_balanced (evs : list Event) (w : World) :
  ledger_balanced w -> ledger_balanced (run w evs).
Proof.
  revert w. induction evs as [|ev evs IH]; intros w Hw; [exact Hw|].
  cbn. apply IH. now apply step_balanced.
Qed.

Lemma reachable_balanced (w : World) : reachable w -> ledger_balanced w.
Proof.
  intros (url & dir & now & files & evs & ->).
  apply run_balanced. reflexivity.
Qed.

Lemma ceil_div_1000_bounds (n : Z) :
  n <= 1000 * JS.ceil_div_1000 n < n + 1000.
Proof.
  unfold JS.ceil_div_1000.
  pose proof (Z.div_mod (- n) 1000 ltac:(lia)).
  pose proof (Z.mod_pos_bound (- n) 1000 ltac:(lia)). lia.
Qed.

(** After a retained segment the [close] listener schedules the next
    capture exactly when the recorded duration is still below the target;
    otherwise it resolves the attempt and starts nothing. *)
Lemma onClose_continues
    (a : Attempt) (code : option Z) (now : Z) (w : World) :
  code_is_zero code && existsSync (segmentFile a) w = true ->
  actions (onClose a code now w)
  = actions w
      ++ [if recordedDurationMs (this w) + (now - segmentStartTime a)
             <? totalDurationMs (this w)
          then SetTimeout recordSegment_cb 100
          else SegmentResolved (process a)].
Proof.
  intros Hok. unfold onClose.
  replace (existsSync (segmentFile a) (update (set_isRecording false) w))
    with (existsSync (segmentFile a) w) by reflexivity.
  rewrite Hok. cbn.
  destruct (recordedDurationMs (this w) + (now - segmentStartTime a)
            <? totalDurationMs (this w)); reflexivity.
Qed.

(** C5 (as the code has it): in every world the recorder reaches, a
    capture is started only while the recorded duration is below the
    target, and it asks the subprocess for the remaining time rounded up
    to whole seconds; at or above the target neither [recordSegment] nor
    [resumeRecording] starts anything; the [close] listener of a retained
    segment schedules the next capture exactly when the recorded duration
    is still below the target; and [checkCompletion] calls
    [mergeRecordings] only when [isRecording] is false and the recorded duration,
    which is the sum of the retained segments' durations, has reached the
    target. *)
Theorem capture_respects_target
    (w : World) (now : Z) (finalOutput : string) :
  reachable w ->
  let remainingMs := totalDurationMs (this w) - recordedDurationMs (this w) in
  (forall w' a,
      recordSegment now w = (w', Some a) ->
      recordedDurationMs (this w) < totalDurationMs (this w)
      /\ exists args,
           last (actions w') = Some (Spawn (process a) "ffmpeg" args)
           /\ option_after "-t" args
              = Some (pretty (JS.ceil_div_1000 remainingMs))
           /\ remainingMs <= 1000 * JS.ceil_div_1000 remainingMs
              < remainingMs + 1000)
  /\ (totalDurationMs (this w) <= recordedDurationMs (this w) ->
      recordSegment now w = (w, None)
      /\ resumeRecording now w = (w, None))
  /\ (forall a code,
        code_is_zero code && existsSync (segmentFile a) w = true ->
        last (actions (onClose a code now w))
        = Some (if recordedDurationMs (this (onClose a code now w))
                   <? totalDurationMs (this w)
                then SetTimeout recordSegment_cb 100
                else SegmentResolved (process a)))
  /\ (forall w' started,
        checkCompletion finalOutput w = (w', Some started) ->
        isRecording (this w) = false
        /\ totalDurationMs (this w) <= recordedDurationMs (this w)
        /\ recordedDurationMs (this w)
           = sum_durations (recordings (this w))).
Proof.
  intros Hreach remainingMs.
  assert (Hbal : ledger_balanced w) by now apply reachable_balanced.
  split; [|split; [|split]].
  - intros w' a Hstart.
    apply recordSegment_started in Hstart
      as (Hlt & _ & _ & _ & Hpid & _ & _ & _ & _ & _ & Hact).
    split; [exact Hlt|]. eexists. rewrite Hact, Hpid.
    split; [apply last_snoc|].
    split; [|apply ceil_div_1000_bounds].
    unfold ffmpegArgs. cbn.
    destruct (String.eqb "-i" "-t") eqn:E; [discriminate E|]. reflexivity.
  - intros Hdone. split.
    + now apply recordSegment_complete.
    + now apply resumeRecording_complete.
  - intros a code Hok.
    rewrite onClose_continues, onClose_recordedDurationMs, Hok by exact Hok.
    apply last_snoc.
  - intros w' started. unfold checkCompletion.
    destruct (totalDurationMs (this w) <=? recordedDurationMs (this w))
      eqn:Hdone; cbn [andb].
    + destruct (isRecording (this w)); cbn [negb].
      * intros Heq. inversion Heq.
      * intros _. apply Z.leb_le in Hdone. auto.
    + intros Heq. inversion Heq.
Qed.

(** ** Further properties of the recorder *)

(** *** The manifest of a merge of several segments *)

Definition by_index (a b : Recording) : Prop := (index a <= index b)%nat.

Lemma insert_by_index_perm (r : Recording) (l : list Recording) :
  insert_by_index r l ≡ₚ r :: l.
Proof.
  induction l as [|x l IH]; cbn; [reflexivity|].
  destruct (index r <=? index x)%nat; [reflexivity|].
  rewrite IH. apply Permutation_swap.
Qed.

Lemma sort_by_index_perm (l : list Recording) : sort_by_index l ≡ₚ l.
Proof.
  induction l as [|r l IH]; cbn; [reflexivity|].
  fold (sort_by_index l). now rewrite insert_by_index_perm, IH.
Qed.

Lemma insert_by_index_sorted (r : Recording) (l : list Recording) :
  StronglySorted by_index l -> StronglySorted by_index (insert_by_index r l).
Proof.
  induction l as [|x l IH]; intros Hl; cbn.
  - repeat constructor.
  - apply StronglySorted_inv in Hl as [Hl Hx].
    destruct (index r <=? index x)%nat eqn:Hle.
    + apply Nat.leb_le in Hle. constructor; [now constructor|].
      constructor; [exact Hle|].
      eapply Forall_impl; [exact Hx|]. unfold by_index. cbn. lia.
    + apply Nat.leb_gt in Hle. constructor; [now apply IH|].
      rewrite insert_by_index_perm. constructor; [|exact Hx].
      unfold by_index. lia.
Qed.

Lemma sort_by_index_sorted (l : list Recording) :
  StronglySorted by_index (sort_by_index l).
Proof.
  induction l as [|r l IH]; cbn; [constructor|].
  now apply insert_by_index_sorted.
Qed.

(** Segments that are in index order already keep their order. *)
Lemma sort_by_index_id (l : list Recording) :
  StronglySorted by_index l -> sort_by_index l = l.
Proof.
  induction l as [|r l IH]; intros Hl; [reflexivity|].
  apply StronglySorted_inv in Hl as [Hl Hr].
  cbn. fold (sort_by_index l). rewrite IH by exact Hl.
  destruct l as [|x l]; [reflexivity|]. cbn.
  apply Forall_cons in Hr as [Hrx _]. unfold by_index in Hrx.
  apply Nat.leb_le in Hrx. now rewrite Hrx.
Qed.

(** X1: With two or more segments [mergeRecordings] sorts the list in place,
    writes a manifest that names every segment exactly once in ascending
    index order (in capture order when the list was in index order), touches
    no other file, and spawns one ffmpeg that reads the manifest. *)
Theorem mergeRecordings_manifest
    (finalOutputName : string) (w : World) (r1 r2 : Recording)
    (l : list Recording) :
  recordings (this w) = r1 :: r2 :: l ->
  let merged := sort_by_index (recordings (this w)) in
  let finalPath := path_join (outputDir (this w)) finalOutputName in
  let concatFile :=
    path_join (outputDir (this w))
      ("concat_" +:+ pretty (sessionId (this w)) +:+ ".txt") in
  exists w',
    mergeRecordings finalOutputName w
    = (w', MergeSpawned {| finalPath := finalPath;
                           concatFile := concatFile;
                           mergeProcess := nextHandle w |})
    /\ merged ≡ₚ recordings (this w)
    /\ StronglySorted by_index merged
    /\ (StronglySorted by_index (recordings (this w)) ->
        merged = recordings (this w))
    /\ recordings (this w') = merged
    /\ fs w' = <[concatFile := concatContent merged]> (fs w)
    /\ actions w'
       = actions w
           ++ [Spawn (nextHandle w) "ffmpeg" (mergeArgs concatFile finalPath)].
Proof.
  intros Hrec merged finalPath concatFile.
  unfold mergeRecordings. rewrite Hrec. eexists. split; [reflexivity|].
  subst merged. rewrite Hrec.
  split; [apply sort_by_index_perm|].
  split; [apply sort_by_index_sorted|].
  split; [apply sort_by_index_id|].
  cbn. rewrite Hrec. auto.
Qed.

(** *** A merge that succeeds *)

Lemma unlink_all_other (l : list Recording) (w : World) (p : string) :
  (forall r, r ∈ l -> file r <> p) ->
  fs (foldl (fun w recording => unlinkIfExists (file recording) w) w l) !! p
  = fs w !! p.
Proof.
  revert w. induction l as [|x l IH]; intros w Hp; [reflexivity|].
  cbn. rewrite IH.
  - apply unlinkIfExists_other, Hp, list_elem_of_here.
  - intros r Hr. apply Hp. now apply list_elem_of_further.
Qed.

Lemma unlink_all_actions (l : list Recording) (w : World) :
  actions (foldl (fun w recording => unlinkIfExists (file recording) w) w l)
  = actions w.
Proof.
  revert w. induction l as [|r l IH]; intros w; [reflexivity|].
  cbn. rewrite IH. apply unlinkIfExists_this.
Qed.

(** X2: When the merge subprocess exits with code 0 and the manifest is in
    place, the promise resolves to the final path; the manifest and every
    segment file are gone, and every other file, the merged output at a
    path of its own among them, is as it was. *)
Theorem mergeClose_success (m : Merge) (w : World) :
  is_Some (fs w !! concatFile m) ->
  exists w',
    mergeClose m (Some 0) w = (w', MergeResolved (finalPath m))
    /\ this w' = this w
    /\ actions w' = actions w
    /\ fs w' !! concatFile m = None
    /\ (forall r, r ∈ recordings (this w) -> fs w' !! file r = None)
    /\ (forall p,
          p <> concatFile m ->
          (forall r, r ∈ recordings (this w) -> file r <> p) ->
          fs w' !! p = fs w !! p).
Proof.
  intros [manifest Hm]. unfold mergeClose, unlinkSync. rewrite Hm.
  eexists. split; [reflexivity|]. cbn.
  split; [now rewrite unlink_all_this|].
  split; [now rewrite unlink_all_actions|].
  split; [apply unlink_all_keeps_gone; cbn; apply lookup_delete_eq|].
  split; [intros r Hr; apply unlink_all_gone; exact Hr|].
  intros p Hp Hfiles. rewrite unlink_all_other by exact Hfiles.
  cbn. now apply lookup_delete_ne.
Qed.

(** *** Calling twice *)

(** X3: Starting the monitoring while it runs, and stopping it while it is
    stopped, change nothing: no second interval, no second probe.  A second
    [stop] changes no field and no file; it sends SIGTERM once more to the
    process on record, which [stop] never forgets, also when that process
    has exited. *)
Theorem calling_twice (w : World) :
  startStreamMonitoring (startStreamMonitoring w) = startStreamMonitoring w
  /\ stopStreamMonitoring (stopStreamMonitoring w) = stopStreamMonitoring w
  /\ this (stop (stop w)) = this (stop w)
  /\ fs (stop (stop w)) = fs (stop w)
  /\ actions (stop (stop w))
     = actions (stop w)
         ++ match currentProcess (this w) with
            | Some pid => [Kill pid "SIGTERM"]
            | None => []
            end.
Proof.
  split; [|split].
  - unfold startStreamMonitoring at 1.
    now rewrite startStreamMonitoring_on.
  - unfold stopStreamMonitoring at 1.
    destruct (stopStreamMonitoring_off w) as [Hm Hq].
    cbn. rewrite Hq. unfold stopStreamMonitoring. cbn.
    destruct (quickCheckInterval (this w)); reflexivity.
  - unfold stop, stopStreamMonitoring. cbn.
    destruct (quickCheckInterval (this w)) eqn:Hq; cbn;
      destruct (currentProcess (this w)) eqn:Hp;
      repeat (progress (rewrite ?Hq, ?Hp; cbn));
      rewrite ?app_nil_r; repeat split; reflexivity.
Qed.

(** *** A session that asks for no time *)

Lemma stopStreamMonitoring_actions (w : World) :
  actions (stopStreamMonitoring w)
  = actions w
      ++ match quickCheckInterval (this w) with
         | Some id => [ClearInterval id]
         | None => []
         end.
Proof.
  unfold stopStreamMonitoring. cbn.
  destruct (quickCheckInterval (this w)); cbn; now rewrite ?app_nil_r.
Qed.

Lemma startStreamMonitoring_actions (w : World) :
  exists added,
    actions (startStreamMonitoring w) = actions w ++ added
    /\ forall pid args, Spawn pid "ffmpeg" args ∉ added.
Proof.
  unfold startStreamMonitoring, startContinuousMonitoring.
  destruct (isMonitoring (this w)); cbn.
  - exists []. rewrite app_nil_r. split; [reflexivity|].
    intros pid args Hin. inversion Hin.
  - destruct (isRecording (this w)); cbn.
    + eexists. split; [reflexivity|]. intros pid args Hin.
      apply list_elem_of_singleton in Hin. discriminate.
    + eexists. rewrite <- app_assoc. split; [reflexivity|].
      intros pid args Hin. cbn in Hin.
      apply elem_of_cons in Hin as [Hin|Hin]; [discriminate|].
      apply list_elem_of_singleton in Hin. discriminate.
Qed.

(** With the target met, no capture running and no segment retained,
    [checkCompletion] stops the monitoring and rejects. *)
Lemma checkCompletion_nothing_recorded (finalOutput : string) (w : World) :
  totalDurationMs (this w) <= recordedDurationMs (this w) ->
  isRecording (this w) = false ->
  recordings (this w) = [] ->
  fst (checkCompletion finalOutput w)
  = perform (Reject (Error "No recordings to merge"))
            (stopStreamMonitoring w).
Proof.
  intros Hdone Hidle Hnone. unfold checkCompletion.
  apply Z.leb_le in Hdone. rewrite Hdone, Hidle. cbn [andb negb].
  unfold mergeRecordings.
  destruct (stopStreamMonitoring_frame w) as (Hrec & _).
  now rewrite Hrec, Hnone.
Qed.

(** X4: [startRecording] with a duration of zero minutes or less, on a recorder
    that is not recording, spawns no capture whatever the initial check
    says: [checkCompletion] runs at once, merges the empty list and rejects
    with "No recordings to merge", and monitoring is off afterwards. *)
Theorem startRecording_no_time
    (durationMinutes : Z) (finalOutputName : option string)
    (isInitiallyAvailable : bool) (now : Z) (w : World) :
  durationMinutes <= 0 ->
  isRecording (this w) = false ->
  let started := startRecording durationMinutes finalOutputName now w in
  let w' :=
    fst (startRecordingChecked (finalOutputOf finalOutputName (this started))
           isInitiallyAvailable now started) in
  last (actions w') = Some (Reject (Error "No recordings to merge"))
  /\ isMonitoring (this w') = false
  /\ quickCheckInterval (this w') = None
  /\ recordings (this w') = []
  /\ fs w' = fs w
  /\ forall pid args,
       Spawn pid "ffmpeg" args ∈ actions w' ->
       Spawn pid "ffmpeg" args ∈ actions w.
Proof.
  intros Hno Hidle started w'.
  remember (finalOutputOf finalOutputName (this started)) as finalOutput
    eqn:Hname.
  clear Hname.
  remember (update (set_isStreamAvailable isInitiallyAvailable) started)
    as checked eqn:Hchecked.
  assert (Hfacts :
            totalDurationMs (this checked) <= recordedDurationMs (this checked)
            /\ isRecording (this checked) = false
            /\ recordings (this checked) = []
            /\ fs checked = fs w
            /\ actions checked
               = actions w ++ [CheckAvailability (initialCheck_cb
                                 (finalOutputOf finalOutputName
                                    (this started)))]).
  { rewrite Hchecked. subst started. unfold startRecording. cbn.
    repeat split; auto. lia. }
  destruct Hfacts as (Hdone & Hidle' & Hnone & Hfs & Hact).
  assert (Hw' : exists before,
             w' = perform (Reject (Error "No recordings to merge"))
                          (stopStreamMonitoring before)
             /\ recordings (this before) = []
             /\ fs before = fs w
             /\ exists added,
                  actions before = actions checked ++ added
                  /\ forall pid args, Spawn pid "ffmpeg" args ∉ added).
  { subst w'. unfold startRecordingChecked. rewrite <- Hchecked.
    destruct isInitiallyAvailable.
    - rewrite recordSegment_complete by exact Hdone.
      rewrite checkCompletion_nothing_recorded by assumption.
      exists checked. repeat split; auto. exists [].
      rewrite app_nil_r. split; [reflexivity|].
      intros pid args Hin. inversion Hin.
    - destruct (startStreamMonitoring_frame checked)
        as (H1 & H2 & H3 & H4 & _ & H6).
      cbn [fst].
      rewrite checkCompletion_nothing_recorded
        by (rewrite ?H1, ?H2, ?H3, ?H4; assumption).
      exists (startStreamMonitoring checked).
      split; [reflexivity|]. split; [now rewrite H1|].
      split; [now rewrite H6|]. apply startStreamMonitoring_actions. }
  destruct Hw' as (before & -> & Hnone' & Hfs' & added & Hadded & Hclean).
  destruct (stopStreamMonitoring_off before) as (Hm & Hq).
  destruct (stopStreamMonitoring_frame before) as (Hrec & _ & _ & _ & _ & Hfs'').
  split; [apply last_snoc|].
  split; [exact Hm|]. split; [exact Hq|].
  split; [cbn; now rewrite Hrec|].
  split; [cbn; now rewrite Hfs''|].
  intros pid args. cbn.
  rewrite stopStreamMonitoring_actions, Hadded, Hact.
  rewrite !elem_of_app.
  intros [[[[Hin|Hin]|Hin]|Hin]|Hin]; auto.
  - apply list_elem_of_singleton in Hin. discriminate.
  - now apply Hclean in Hin.
  - destruct (quickCheckInterval (this before)).
    + apply list_elem_of_singleton in Hin. discriminate.
    + inversion Hin.
  - apply list_elem_of_singleton in Hin. discriminate.
Qed.

(** *** A session of one capture *)

(** Below the target [recordSegment] marks the recorder as recording and
    spawns one ffmpeg for the remaining time. *)
Lemma recordSegment_spawns (now : Z) (w : World) :
  recordedDurationMs (this w) < totalDurationMs (this w) ->
  recordSegment now w
  = ({| this :=
          set_currentProcess (Some (nextHandle w))
            (set_isRecording true (this w));
        fs := fs w;
        actions :=
          actions w
            ++ [Spawn (nextHandle w) "ffmpeg"
                  (ffmpegArgs (streamUrl (this w))
                     (totalDurationMs (this w) - recordedDurationMs (this w))
                     (segmentPath (this w) (length (recordings (this w)))))];
        nextHandle := S (nextHandle w) |},
     Some {| segmentIndex := length (recordings (this w));
             segmentFile :=
               segmentPath (this w) (length (recordings (this w)));
             segmentStartTime := now;
             process := nextHandle w |}).
Proof.
  intros Hbelow. unfold recordSegment.
  apply Z.leb_gt in Hbelow. now rewrite Hbelow.
Qed.

(** The [close] listener on an exit with code 0 and the file in place. *)
Lemma onClose_retains (a : Attempt) (now : Z) (w : World) :
  is_Some (fs w !! segmentFile a) ->
  onClose a (Some 0) now w
  = {| this :=
         set_recordedDurationMs
           (recordedDurationMs (this w) + (now - segmentStartTime a))
           (set_recordings
              (recordings (this w)
                 ++ [{| file := segmentFile a;
                        duration := now - segmentStartTime a;
                        index := segmentIndex a |}])
              (set_isRecording false (this w)));
       fs := fs w;
       actions :=
         actions w
           ++ [if recordedDurationMs (this w) + (now - segmentStartTime a)
                  <? totalDurationMs (this w)
               then SetTimeout recordSegment_cb 100
               else SegmentResolved (process a)];
       nextHandle := nextHandle w |}.
Proof.
  intros [content Hfile]. unfold onClose, existsSync. cbn. rewrite Hfile.
  cbn.
  destruct (recordedDurationMs (this w) + (now - segmentStartTime a)
            <? totalDurationMs (this w)); reflexivity.
Qed.

(** [checkCompletion] with the target met, nothing running, monitoring
    off and one segment retained: the segment is renamed to the final path
    and the session resolves to the output name. *)
Lemma checkCompletion_renames
    (finalOutput : string) (w : World) (only : Recording) (content : string) :
  totalDurationMs (this w) <= recordedDurationMs (this w) ->
  isRecording (this w) = false ->
  quickCheckInterval (this w) = None ->
  recordings (this w) = [only] ->
  fs w !! file only = Some content ->
  fst (checkCompletion finalOutput w)
  = {| this := set_isMonitoring false (this w);
       fs := <[path_join (outputDir (this w)) finalOutput := content]>
               (delete (file only) (fs w));
       actions := actions w ++ [Resolve finalOutput];
       nextHandle := nextHandle w |}.
Proof.
  intros Hmet Hidle Hq Hone Hfile. unfold checkCompletion.
  apply Z.leb_le in Hmet. rewrite Hmet, Hidle. cbn [andb negb].
  unfold stopStreamMonitoring. cbn. rewrite Hq.
  unfold mergeRecordings, renameSync. cbn. rewrite Hone, Hfile. reflexivity.
Qed.

(** X5: The stream is up, the first capture runs for the whole target and
    exits with code 0, and the completion check runs: one process was
    spawned in all, asked for the target in seconds; the session resolves
    to the output name; the final path holds what the capture wrote. *)
Theorem single_capture_session
    (url dir : string) (t0 : Z) (files : gmap string string)
    (durationMinutes : Z) (finalOutputName : option string)
    (now closed : Z) (content : string) :
  0 < durationMinutes ->
  durationMinutes * 60 * 1000 <= closed - now ->
  let r := constructor url dir t0 in
  let finalOutput := finalOutputOf finalOutputName r in
  let a := {| segmentIndex := 0; segmentFile := segmentPath r 0;
              segmentStartTime := now; process := 0 |} in
  let w :=
    run (new_world url dir t0 files)
        [StartRecording durationMinutes finalOutputName now;
         InitialCheck finalOutput true now;
         SubprocessWrites (segmentFile a) content;
         Close a (Some 0) closed;
         CheckCompletion finalOutput] in
  actions w
  = [CheckAvailability (initialCheck_cb finalOutput);
     Spawn 0 "ffmpeg"
           (ffmpegArgs url (durationMinutes * 60 * 1000 - 0)
                       (segmentFile a));
     SegmentResolved 0;
     Resolve finalOutput]
  /\ fs w !! path_join dir finalOutput = Some content
  /\ (segmentFile a <> path_join dir finalOutput ->
      fs w !! segmentFile a = None)
  /\ recordedDurationMs (this w) = closed - now
  /\ isRecording (this w) = false
  /\ isMonitoring (this w) = false.
Proof.
  intros Hpos Hlong r finalOutput a w. subst w.
  unfold run. cbn [foldl step].
  remember (startRecording durationMinutes finalOutputName now
              (new_world url dir t0 files)) as w1 eqn:Hw1.
  unfold startRecordingChecked.
  remember (update (set_isStreamAvailable true) w1) as w2 eqn:Hw2.
  assert (H2 : this w2
               = set_isStreamAvailable true
                   (set_startTime (Some now)
                      (set_recordings []
                         (set_recordedDurationMs 0
                            (set_totalDurationMs
                               (durationMinutes * 60 * 1000) r))))
               /\ fs w2 = files
               /\ actions w2 = [CheckAvailability (initialCheck_cb finalOutput)]
               /\ nextHandle w2 = 0%nat)
    by (rewrite Hw2, Hw1; repeat split; reflexivity).
  clear Hw1 Hw2 w1. destruct H2 as (Hthis & Hfs & Hact & Hnh).
  rewrite recordSegment_spawns by (rewrite Hthis; cbn; lia).
  cbn [fst].
  rewrite Hthis, Hfs, Hact, Hnh. cbn.
  fold r. change (segmentPath r 0) with (segmentFile a).
  unfold writeFileSync. cbn.
  rewrite onClose_retains by (cbn; rewrite lookup_insert_eq; eauto).
  cbn.
  assert (Hfull : (0 + (closed - now) <? durationMinutes * 60 * 1000) = false)
    by (apply Z.ltb_ge; lia).
  rewrite Hfull.
  erewrite checkCompletion_renames;
    [|cbn; lia|reflexivity|reflexivity|reflexivity
     |cbn; apply lookup_insert_eq].
  cbn. split; [reflexivity|].
  split; [apply lookup_insert_eq|].
  split; [|split; [lia|auto]].
  intros Hne. rewrite lookup_insert_ne by auto. apply lookup_delete_eq.
Qed.

(** *** Back from an outage *)





(** *** What holds in every world the recorder reaches *)

(** A property of the new recorder that every callback preserves holds in
    every reachable world. *)
Lemma reachable_ind (P : World -> Prop) :
  (forall url dir now files, P (new_world url dir now files)) ->
  (forall w ev, P w -> P (step w ev)) ->
  forall w, reachable w -> P w.
Proof.
  intros Hnew Hstep w (url & dir & now & files & evs & ->).
  unfold run. generalize (Hnew url dir now files).
  generalize (new_world url dir now files).
  induction evs as [|ev evs IH]; intros w0 Hw0; [exact Hw0|].
  cbn. apply IH, Hstep, Hw0.
Qed.

Lemma armedIntervals_snoc (log : list Action) (a : Action) :
  armedIntervals (log ++ [a]) = armed_after (armedIntervals log) a.
Proof. unfold armedIntervals. now rewrite foldl_app. Qed.

(** A callback step that leaves the monitoring fields alone, logs nothing
    about intervals, and does not claim to record without a process. *)
Lemma well_formed_quiet (w w' : World) (added : list Action) :
  well_formed w ->
  isMonitoring (this w') = isMonitoring (this w) ->
  quickCheckInterval (this w') = quickCheckInterval (this w) ->
  actions w' = actions w ++ added ->
  Forall (fun a => forall armed, armed_after armed a = armed) added ->
  (isRecording (this w') = true ->
   is_Some (currentProcess (this w'))
   \/ isRecording (this w) = true
      /\ currentProcess (this w') = currentProcess (this w)) ->
  well_formed w'.
Proof.
  intros (Hm & Ha & Hp) Hm' Hq' Hact Hadded Hrec.
  split; [now rewrite Hm', Hq'|]. split.
  - unfold heldInterval. rewrite Hq', Hact. fold (heldInterval (this w)).
    rewrite <- Ha. clear Hact. unfold armedIntervals. rewrite foldl_app.
    generalize (foldl armed_after [] (actions w)).
    induction Hadded as [|a added Ha' _ IH]; intros armed; [reflexivity|].
    cbn. now rewrite Ha', IH.
  - intros Hr. destruct (Hrec Hr) as [Hsome | [Hr0 Hcp]]; [exact Hsome|].
    rewrite Hcp. auto.
Qed.

Ltac quiet_step added :=
  let H := fresh "Hwf" in
  intros H;
  eapply (well_formed_quiet _ _ added);
  [exact H | reflexivity | reflexivity | cbn; rewrite ?app_nil_r; reflexivity
  | repeat constructor | cbn; auto].

Lemma well_formed_new (url dir : string) (now : Z) (files : gmap string string) :
  well_formed (new_world url dir now files).
Proof. repeat split. discriminate. Qed.

Lemma well_formed_perform (a : Action) (w : World) :
  (forall armed, armed_after armed a = armed) ->
  well_formed w -> well_formed (perform a w).
Proof.
  intros Ha Hwf. eapply (well_formed_quiet _ _ [a]);
    [exact Hwf | reflexivity | reflexivity | reflexivity
    | repeat constructor; exact Ha | cbn; auto].
Qed.

Lemma well_formed_fs (files : gmap string string) (w : World) :
  well_formed w -> well_formed (set_fs files w).
Proof. quiet_step (@nil Action). Qed.

Lemma well_formed_unlinkIfExists (p : string) (w : World) :
  well_formed w -> well_formed (unlinkIfExists p w).
Proof.
  unfold unlinkIfExists, existsSync, unlinkSync.
  destruct (fs w !! p); [apply well_formed_fs | auto].
Qed.

Lemma well_formed_unlink_all (l : list Recording) (w : World) :
  well_formed w ->
  well_formed (foldl (fun w recording => unlinkIfExists (file recording) w)
                     w l).
Proof.
  revert w. induction l as [|r l IH]; intros w Hwf; [exact Hwf|].
  cbn. apply IH. now apply well_formed_unlinkIfExists.
Qed.

(** A change of fields other than the four the property speaks of. *)
Lemma well_formed_update (f : Recorder -> Recorder) (w : World) :
  (forall r, isMonitoring (f r) = isMonitoring r) ->
  (forall r, quickCheckInterval (f r) = quickCheckInterval r) ->
  (forall r, isRecording (f r) = true -> isRecording r = true) ->
  (forall r, currentProcess (f r) = currentProcess r) ->
  well_formed w -> well_formed (update f w).
Proof.
  intros H1 H2 H3 H4 Hwf.
  eapply (well_formed_quiet _ _ []);
    [exact Hwf | apply H1 | apply H2 | cbn; now rewrite app_nil_r
    | constructor | cbn; intros Hr; right; auto].
Qed.

Ltac wf_update :=
  apply well_formed_update;
  [reflexivity | reflexivity | cbn; congruence | reflexivity | ].

Lemma well_formed_stopStreamMonitoring (w : World) :
  well_formed w -> well_formed (stopStreamMonitoring w).
Proof.
  intros (Hm & Ha & Hp). unfold stopStreamMonitoring. cbn.
  unfold heldInterval in Ha.
  destruct (quickCheckInterval (this w)) as [id|] eqn:Hq; cbn.
  - split; [reflexivity|]. split; [|exact Hp].
    cbn. rewrite armedIntervals_snoc, Ha. cbn. now rewrite Nat.eqb_refl.
  - split; [cbn; now rewrite Hq|]. split; [|exact Hp].
    unfold heldInterval. cbn. now rewrite Hq.
Qed.

Lemma well_formed_startContinuousMonitoring (w : World) :
  well_formed w -> well_formed (startContinuousMonitoring w).
Proof.
  unfold startContinuousMonitoring.
  destruct (negb (isMonitoring (this w)) || isRecording (this w)); [auto|].
  cbn. quiet_step [Spawn (nextHandle w) "ffprobe"
                     (ffprobeArgs (streamUrl (this w)))].
Qed.

Lemma well_formed_startStreamMonitoring (w : World) :
  well_formed w -> well_formed (startStreamMonitoring w).
Proof.
  intros Hwf. unfold startStreamMonitoring.
  destruct (isMonitoring (this w)) eqn:Hm; [exact Hwf|].
  apply well_formed_startContinuousMonitoring.
  destruct Hwf as (Hm' & Ha & Hp). rewrite Hm in Hm'.
  unfold heldInterval in Ha.
  destruct (quickCheckInterval (this w)) eqn:Hq; [discriminate|].
  cbn. split; [reflexivity|]. split; [|exact Hp].
  cbn. rewrite armedIntervals_snoc, Ha. reflexivity.
Qed.

Lemma well_formed_recordSegment (now : Z) (w : World) :
  well_formed w -> well_formed (fst (recordSegment now w)).
Proof.
  unfold recordSegment.
  destruct (totalDurationMs (this w) <=? recordedDurationMs (this w));
    [auto|].
  cbn. intros Hwf.
  eapply (well_formed_quiet _ _ [Spawn _ _ _]);
    [exact Hwf | reflexivity | reflexivity | reflexivity
    | repeat constructor | cbn; eauto].
Qed.

Lemma well_formed_resumeRecording (now : Z) (w : World) :
  well_formed w -> well_formed (fst (resumeRecording now w)).
Proof.
  intros Hwf. unfold resumeRecording.
  destruct (isRecording (this w)); [exact Hwf|].
  destruct (totalDurationMs (this w) <=? recordedDurationMs (this w));
    [exact Hwf|].
  now apply well_formed_recordSegment, well_formed_stopStreamMonitoring.
Qed.

Lemma well_formed_mergeRecordings (finalOutputName : string) (w : World) :
  well_formed w -> well_formed (fst (mergeRecordings finalOutputName w)).
Proof.
  intros Hwf. unfold mergeRecordings.
  destruct (recordings (this w)) as [|r1 [|r2 l]]; [exact Hwf| |].
  - unfold renameSync. destruct (fs w !! file r1); [|exact Hwf].
    now apply well_formed_fs.
  - cbn.
    eapply (well_formed_quiet _ _ [Spawn _ _ _]);
      [exact Hwf | reflexivity | reflexivity | reflexivity
      | repeat constructor | cbn; auto].
Qed.

Lemma well_formed_checkCompletion (finalOutput : string) (w : World) :
  well_formed w -> well_formed (fst (checkCompletion finalOutput w)).
Proof.
  intros Hwf. unfold checkCompletion.
  destruct ((totalDurationMs (this w) <=? recordedDurationMs (this w))
            && negb (isRecording (this w))).
  - pose proof (well_formed_mergeRecordings finalOutput _
                  (well_formed_stopStreamMonitoring _ Hwf)) as Hm.
    destruct (mergeRecordings finalOutput (stopStreamMonitoring w))
      as [w' [e|path|m]]; cbn [fst] in *;
      [apply well_formed_perform; auto .. | exact Hm].
  - cbn [fst]. apply well_formed_perform; auto.
Qed.

Lemma well_formed_onClose
    (a : Attempt) (code : option Z) (now : Z) (w : World) :
  well_formed w -> well_formed (onClose a code now w).
Proof.
  intros Hwf. unfold onClose.
  assert (Hidle : well_formed (update (set_isRecording false) w))
    by (wf_update; exact Hwf).
  destruct (code_is_zero code
            && existsSync (segmentFile a) (update (set_isRecording false) w)).
  - match goal with
    | |- well_formed (if ?c then _ else _) => destruct c
    end; apply well_formed_perform; auto; wf_update; wf_update; exact Hidle.
  - apply well_formed_perform; [auto|].
    apply well_formed_startStreamMonitoring. wf_update.
    now apply well_formed_unlinkIfExists.
Qed.

Lemma well_formed_onError (a : Attempt) (w : World) :
  well_formed w -> well_formed (onError a w).
Proof.
  intros Hwf. unfold onError. apply well_formed_perform; [auto|].
  apply well_formed_startStreamMonitoring. wf_update. wf_update. exact Hwf.
Qed.

Lemma well_formed_stop (w : World) : well_formed w -> well_formed (stop w).
Proof.
  intros Hwf. unfold stop.
  pose proof (well_formed_stopStreamMonitoring w Hwf) as Hs.
  destruct (currentProcess (this (stopStreamMonitoring w))); [|exact Hs].
  wf_update. now apply well_formed_perform.
Qed.

Lemma well_formed_step (w : World) (ev : Event) :
  well_formed w -> well_formed (step w ev).
Proof.
  intros Hwf. destruct ev; cbn [step].
  - unfold startRecording. apply well_formed_perform; [auto|].
    wf_update. wf_update. wf_update. wf_update. exact Hwf.
  - unfold startRecordingChecked.
    assert (Hc : well_formed
                   (update (set_isStreamAvailable isInitiallyAvailable) w))
      by (wf_update; exact Hwf).
    destruct isInitiallyAvailable.
    + pose proof (well_formed_recordSegment now _ Hc) as Hr.
      destruct (recordSegment now (update (set_isStreamAvailable true) w))
        as [w' [a|]]; cbn [fst] in *; [exact Hr|].
      now apply well_formed_checkCompletion.
    + cbn [fst].
      now apply well_formed_checkCompletion,
        well_formed_startStreamMonitoring.
  - now apply well_formed_checkCompletion.
  - unfold quickCheck. destruct (isRecording (this w)); [exact Hwf|].
    now apply well_formed_perform.
  - unfold quickChecked. destruct isAvailable.
    + destruct (negb (isStreamAvailable (this w))); cbn [fst].
      * apply well_formed_resumeRecording.
        wf_update. wf_update. wf_update. exact Hwf.
      * wf_update. wf_update. wf_update. exact Hwf.
    + cbn [fst]. wf_update. wf_update. exact Hwf.
  - unfold probeClose.
    apply well_formed_perform; [auto|].
    destruct (code_is_zero code && negb (isStreamAvailable (this w)));
      [now apply well_formed_perform | exact Hwf].
  - unfold probeVerified.
    destruct (isAvailable && negb (isRecording (this w))); [|exact Hwf].
    apply well_formed_resumeRecording. wf_update. exact Hwf.
  - unfold probeError. now apply well_formed_perform.
  - unfold probeRearm.
    destruct (isMonitoring (this w) && negb (isRecording (this w)));
      [now apply well_formed_startContinuousMonitoring | exact Hwf].
  - now apply well_formed_recordSegment.
  - now apply well_formed_onClose.
  - now apply well_formed_onError.
  - unfold mergeSettled, mergeClose, unlinkSync.
    destruct (fs w !! concatFile m); cbn [fst snd]; [|exact Hwf].
    assert (well_formed
              (foldl (fun w recording => unlinkIfExists (file recording) w)
                     (set_fs (delete (concatFile m) (fs w)) w)
                     (recordings
                        (this (set_fs (delete (concatFile m) (fs w)) w)))))
      by now apply well_formed_unlink_all, well_formed_fs.
    destruct (code_is_zero code); cbn [fst snd];
      now apply well_formed_perform.
  - unfold mergeSettled, mergeError. cbn [fst snd].
    now apply well_formed_perform.
  - now apply well_formed_stop.
  - unfold writeFileSync. now apply well_formed_fs.
Qed.

Lemma reachable_well_formed (w : World) : reachable w -> well_formed w.
Proof.
  apply reachable_ind; [apply well_formed_new | apply well_formed_step].
Qed.


(** X8: In every world the recorder reaches in which it is recording, it has
    the capture process on record, so a [stop] sends it SIGTERM. *)
Theorem stop_signals_the_capture (w : World) :
  reachable w ->
  isRecording (this w) = true ->
  exists pid,
    currentProcess (this w) = Some pid
    /\ last (actions (stop w)) = Some (Kill pid "SIGTERM")
    /\ isRecording (this (stop w)) = false.
Proof.
  intros Hreach Hrec.
  destruct (reachable_well_formed w Hreach) as (_ & _ & Hp).
  destruct (Hp Hrec) as [pid Hpid]. exists pid. split; [exact Hpid|].
  destruct (stop_effects w) as (_ & _ & _ & _ & _ & Hkill & _).
  destruct (Hkill pid Hpid) as [Hidle Hlast]. auto.
Qed.

(** *** Fields the callbacks leave alone *)

Section Frame.

(** A reading of the recorder that the setters used outside the quick
    check do not change. *)
Context {A : Type} (g : Recorder -> A).
Hypothesis g_recordings : forall v r, g (set_recordings v r) = g r.
Hypothesis g_totalDurationMs : forall v r, g (set_totalDurationMs v r) = g r.
Hypothesis g_recordedDurationMs :
  forall v r, g (set_recordedDurationMs v r) = g r.
Hypothesis g_isRecording : forall v r, g (set_isRecording v r) = g r.
Hypothesis g_isMonitoring : forall v r, g (set_isMonitoring v r) = g r.
Hypothesis g_currentProcess : forall v r, g (set_currentProcess v r) = g r.
Hypothesis g_startTime : forall v r, g (set_startTime v r) = g r.
Hypothesis g_quickCheckInterval :
  forall v r, g (set_quickCheckInterval v r) = g r.
Hypothesis g_isStreamAvailable :
  forall v r, g (set_isStreamAvailable v r) = g r.

Ltac kept :=
  cbn [this update perform set_fs writeFileSync fresh spawn fst snd];
  repeat (progress
            rewrite ?g_recordings, ?g_totalDurationMs, ?g_recordedDurationMs,
              ?g_isRecording, ?g_isMonitoring, ?g_currentProcess,
              ?g_startTime, ?g_quickCheckInterval, ?g_isStreamAvailable);
  try reflexivity.

Lemma kept_unlinkIfExists (p : string) (w : World) :
  g (this (unlinkIfExists p w)) = g (this w).
Proof. now destruct (unlinkIfExists_this p w) as (-> & _). Qed.

Ltac branch :=
  match goal with
  | |- context [match ?x with _ => _ end] => destruct x
  end.

Lemma kept_stopStreamMonitoring (w : World) :
  g (this (stopStreamMonitoring w)) = g (this w).
Proof. unfold stopStreamMonitoring. branch; kept. Qed.

Lemma kept_startStreamMonitoring (w : World) :
  g (this (startStreamMonitoring w)) = g (this w).
Proof.
  unfold startStreamMonitoring, startContinuousMonitoring.
  destruct (isMonitoring (this w)); [reflexivity|].
  cbn [fresh]. branch; kept.
Qed.

Lemma kept_recordSegment (now : Z) (w : World) :
  g (this (fst (recordSegment now w))) = g (this w).
Proof.
  unfold recordSegment.
  destruct (totalDurationMs (this w) <=? recordedDurationMs (this w)); kept.
Qed.

Lemma kept_resumeRecording (now : Z) (w : World) :
  g (this (fst (resumeRecording now w))) = g (this w).
Proof.
  unfold resumeRecording.
  destruct (isRecording (this w)); [reflexivity|].
  destruct (totalDurationMs (this w) <=? recordedDurationMs (this w));
    [reflexivity|].
  now rewrite kept_recordSegment, kept_stopStreamMonitoring.
Qed.

Lemma kept_mergeRecordings (finalOutputName : string) (w : World) :
  g (this (fst (mergeRecordings finalOutputName w))) = g (this w).
Proof.
  unfold mergeRecordings.
  destruct (recordings (this w)) as [|r1 [|r2 l]]; [reflexivity| |kept].
  unfold renameSync. destruct (fs w !! file r1); reflexivity.
Qed.

Lemma kept_checkCompletion (finalOutput : string) (w : World) :
  g (this (fst (checkCompletion finalOutput w))) = g (this w).
Proof.
  unfold checkCompletion.
  destruct ((totalDurationMs (this w) <=? recordedDurationMs (this w))
            && negb (isRecording (this w))); [|reflexivity].
  pose proof (kept_mergeRecordings finalOutput (stopStreamMonitoring w))
    as Hm.
  rewrite kept_stopStreamMonitoring in Hm.
  destruct (mergeRecordings finalOutput (stopStreamMonitoring w))
    as [w' [e|path|m]]; exact Hm.
Qed.

Lemma kept_onClose (a : Attempt) (code : option Z) (now : Z) (w : World) :
  g (this (onClose a code now w)) = g (this w).
Proof.
  unfold onClose.
  destruct (code_is_zero code
            && existsSync (segmentFile a) (update (set_isRecording false) w)).
  - match goal with
    | |- g (this (if ?c then _ else _)) = _ => destruct c
    end; kept.
  - cbn. rewrite kept_startStreamMonitoring. cbn.
    rewrite g_isStreamAvailable, kept_unlinkIfExists. kept.
Qed.

Lemma kept_onError (a : Attempt) (w : World) :
  g (this (onError a w)) = g (this w).
Proof. unfold onError. cbn. rewrite kept_startStreamMonitoring. kept. Qed.

Lemma kept_stop (w : World) : g (this (stop w)) = g (this w).
Proof.
  unfold stop.
  destruct (currentProcess (this (stopStreamMonitoring w)));
    cbn; rewrite ?g_isRecording; apply kept_stopStreamMonitoring.
Qed.

(** Every callback but the continuation of the quick check. *)
Lemma kept_step (w : World) (ev : Event) :
  (forall isAvailable now, ev <> QuickChecked isAvailable now) ->
  g (this (step w ev)) = g (this w).
Proof.
  intros Hev. destruct ev; cbn [step].
  - unfold startRecording. kept.
  - unfold startRecordingChecked. destruct isInitiallyAvailable.
    + pose proof (kept_recordSegment now
                    (update (set_isStreamAvailable true) w)) as Hr.
      destruct (recordSegment now (update (set_isStreamAvailable true) w))
        as [w' [a|]]; cbn [fst] in *.
      * rewrite Hr. kept.
      * rewrite kept_checkCompletion, Hr. kept.
    + cbn [fst]. rewrite kept_checkCompletion, kept_startStreamMonitoring.
      kept.
  - apply kept_checkCompletion.
  - unfold quickCheck. now destruct (isRecording (this w)).
  - now destruct (Hev isAvailable now).
  - unfold probeClose.
    now destruct (code_is_zero code && negb (isStreamAvailable (this w))).
  - unfold probeVerified.
    destruct (isAvailable && negb (isRecording (this w))); [|reflexivity].
    rewrite kept_resumeRecording. kept.
  - reflexivity.
  - unfold probeRearm, startContinuousMonitoring.
    destruct (isMonitoring (this w) && negb (isRecording (this w)));
      [|reflexivity].
    now destruct (negb (isMonitoring (this w)) || isRecording (this w)).
  - apply kept_recordSegment.
  - apply kept_onClose.
  - apply kept_onError.
  - unfold mergeSettled, mergeClose, unlinkSync.
    destruct (fs w !! concatFile m); cbn [fst snd]; [|reflexivity].
    destruct (code_is_zero code); cbn [fst snd]; cbn;
      now rewrite unlink_all_this.
  - reflexivity.
  - apply kept_stop.
  - reflexivity.
Qed.

(** The continuation of the quick check, for a reading that its two
    setters do not change either. *)
Lemma kept_quickChecked (isAvailable : bool) (now : Z) (w : World) :
  (forall v r, g (set_consecutiveFailures v r) = g r) ->
  (forall v r, g (set_lastSuccessfulCheck v r) = g r) ->
  g (this (fst (quickChecked isAvailable now w))) = g (this w).
Proof.
  intros Hf Hl. unfold quickChecked. destruct isAvailable.
  - destruct (negb (isStreamAvailable (this w))); cbn [fst].
    + rewrite kept_resumeRecording. cbn. now rewrite Hl, Hf; kept.
    + cbn. now rewrite Hl, Hf; kept.
  - cbn. now rewrite Hf; kept.
Qed.

End Frame.

(** *** The failure counter *)

(** What one callback does to the count of consecutive failures. *)
Definition failures_after (n : Z) (ev : Event) : Z :=
  match ev with
  | QuickChecked true _ => 0
  | QuickChecked false _ => n + 1
  | _ => n
  end.

Lemma step_consecutiveFailures (w : World) (ev : Event) :
  consecutiveFailures (this (step w ev))
  = failures_after (consecutiveFailures (this w)) ev.
Proof.
  destruct ev; try (apply (kept_step consecutiveFailures); try reflexivity;
                    intros; discriminate).
  cbn [step failures_after]. unfold quickChecked. destruct isAvailable.
  - destruct (negb (isStreamAvailable (this w))); cbn [fst]; [|reflexivity].
    now rewrite (kept_resumeRecording consecutiveFailures).
  - reflexivity.
Qed.

(** X9: Whatever else happens in between, [consecutiveFailures] is the number
    of quick checks that found the stream down since the last one that
    found it up (since the construction, if none did); it is never
    negative. *)
Theorem consecutiveFailures_counts
    (url dir : string) (now : Z) (files : gmap string string)
    (evs : list Event) :
  consecutiveFailures (this (run (new_world url dir now files) evs))
  = foldl failures_after 0 evs
  /\ 0 <= consecutiveFailures (this (run (new_world url dir now files) evs)).
Proof.
  assert (Hrun : forall w,
             consecutiveFailures (this (run w evs))
             = foldl failures_after (consecutiveFailures (this w)) evs).
  { induction evs as [|ev evs IH]; intros w; [reflexivity|].
    cbn. unfold run in IH. now rewrite IH, step_consecutiveFailures. }
  assert (Hpos : forall n, 0 <= n -> 0 <= foldl failures_after n evs).
  { clear Hrun. induction evs as [|ev evs IH]; intros n Hn; [exact Hn|].
    cbn. apply IH. destruct ev; cbn; try exact Hn.
    destruct isAvailable; lia. }
  rewrite Hrun. split; [reflexivity|]. apply Hpos. cbn. lia.
Qed.

(** *** File names *)

Lemma length_append (s t : string) :
  String.length (s +:+ t) = (String.length s + String.length t)%nat.
Proof.
  induction s as [|c s IH]; [reflexivity|].
  change (String c s +:+ t) with (String c (s +:+ t)).
  cbn. now rewrite IH.
Qed.

Lemma append_inj_r (t s1 s2 : string) : s1 +:+ t = s2 +:+ t -> s1 = s2.
Proof.
  revert s2. induction s1 as [|c s1 IH]; intros [|c' s2].
  - reflexivity.
  - intros H. apply (f_equal String.length) in H.
    rewrite !length_append in H. cbn in H. lia.
  - intros H. apply (f_equal String.length) in H.
    rewrite !length_append in H. cbn in H. lia.
  - change (String c s1 +:+ t) with (String c (s1 +:+ t)).
    change (String c' s2 +:+ t) with (String c' (s2 +:+ t)).
    intros H. injection H as -> H. f_equal. now apply IH.
Qed.

(** Where [path.join] keeps different names apart, different indices give
    different segment files. *)
Lemma segmentPath_inj (r : Recorder) :
  (forall dir, Inj (=) (=) (path_join dir)) ->
  Inj (=) (=) (segmentPath r).
Proof.
  intros Hjoin i j Heq. unfold segmentPath in Heq.
  apply Hjoin in Heq. do 3 apply String.app_inj in Heq.
  apply append_inj_r in Heq. now apply pretty_nat_inj.
Qed.

(** *** The indices and files of a session *)

Lemma same_attempt_eq (a b : Attempt) : same_attempt a b = true <-> a = b.
Proof.
  unfold same_attempt.
  rewrite !andb_true_iff, !Nat.eqb_eq, String.eqb_eq, Z.eqb_eq.
  split.
  - intros [[[Hi Hf] Ht] Hp]. destruct a, b; cbn in *; congruence.
  - intros ->. auto.
Qed.

Lemma is_running_elem (a : Attempt) (running : list Attempt) :
  is_running a running = true <-> a ∈ running.
Proof.
  unfold is_running. rewrite existsb_exists, list_elem_of_In. split.
  - intros (b & Hin & Heq). apply same_attempt_eq in Heq. now subst.
  - intros Hin. exists a. split; [exact Hin|]. now apply same_attempt_eq.
Qed.

Lemma closed_elem (a b : Attempt) (running : list Attempt) :
  b ∈ closed a running -> b ∈ running.
Proof.
  unfold closed. rewrite !list_elem_of_In, filter_In. tauto.
Qed.

Lemma closed_length (a : Attempt) (running : list Attempt) :
  (length (closed a running) <= length running)%nat.
Proof.
  unfold closed. induction running as [|b running IH]; cbn; [lia|].
  destruct (negb (same_attempt a b)); cbn; lia.
Qed.

(** With one capture running, its [close] leaves none. *)
Lemma closed_only (a : Attempt) (running : list Attempt) :
  a ∈ running -> (length running <= 1)%nat -> closed a running = [].
Proof.
  destruct running as [|b [|c running]]; cbn; [reflexivity| |lia].
  intros Hin _. apply list_elem_of_singleton in Hin. subst b.
  now rewrite (proj2 (same_attempt_eq a a) eq_refl).
Qed.

(** Every callback but [startRecording] and a capture's [close] leaves
    the list of segments as it is, or sorted by index. *)
Definition kept_or_sorted (l l' : list Recording) : Prop :=
  l' = l \/ l' = sort_by_index l.

Lemma checkCompletion_recordings (finalOutput : string) (w : World) :
  kept_or_sorted (recordings (this w))
    (recordings (this (fst (checkCompletion finalOutput w)))).
Proof.
  unfold checkCompletion.
  destruct ((totalDurationMs (this w) <=? recordedDurationMs (this w))
            && negb (isRecording (this w))); [|now left].
  assert (Hm : kept_or_sorted (recordings (this w))
                 (recordings
                    (this (fst (mergeRecordings finalOutput
                                  (stopStreamMonitoring w)))))).
  { destruct (stopStreamMonitoring_frame w) as (Hrec & _).
    rewrite <- Hrec. generalize (stopStreamMonitoring w). clear.
    intros w1. unfold mergeRecordings.
    destruct (recordings (this w1)) as [|r1 [|r2 l]] eqn:Hall.
    - left. cbn. exact Hall.
    - left. unfold renameSync. destruct (fs w1 !! file r1); cbn; exact Hall.
    - right. cbn. now rewrite Hall. }
  destruct (mergeRecordings finalOutput (stopStreamMonitoring w))
    as [w' [e|path|m]]; exact Hm.
Qed.

Lemma step_recordings (w : World) (ev : Event) :
  match ev with
  | StartRecording _ _ _ => True
  | Close _ _ _ => True
  | _ => kept_or_sorted (recordings (this w)) (recordings (this (step w ev)))
  end.
Proof.
  destruct ev; cbn [step]; try exact I.
  - unfold startRecordingChecked. destruct isInitiallyAvailable.
    + destruct (recordSegment now (update (set_isStreamAvailable true) w))
        as [w' [a|]] eqn:Hstart; cbn [fst].
      * apply recordSegment_started in Hstart
          as (_ & _ & _ & _ & _ & Hrec & _).
        left. now rewrite Hrec.
      * apply recordSegment_not_started in Hstart. subst w'.
        apply (checkCompletion_recordings finalOutput
                 (update (set_isStreamAvailable true) w)).
    + cbn [fst].
      pose proof (checkCompletion_recordings finalOutput
                    (startStreamMonitoring
                       (update (set_isStreamAvailable false) w))) as Hc.
      destruct (startStreamMonitoring_frame
                  (update (set_isStreamAvailable false) w)) as (Hrec & _).
      now rewrite Hrec in Hc.
  - apply checkCompletion_recordings.
  - left. unfold quickCheck. now destruct (isRecording (this w)).
  - left. unfold quickChecked. destruct isAvailable; [|reflexivity].
    destruct (negb (isStreamAvailable (this w))); [|reflexivity].
    now destruct (resumeRecording_ledger now
                    (update (set_lastSuccessfulCheck (Some now))
                       (update (set_consecutiveFailures 0)
                          (update (set_isStreamAvailable true) w))))
      as (-> & _).
  - left. unfold probeClose.
    now destruct (code_is_zero code && negb (isStreamAvailable (this w))).
  - left. unfold probeVerified.
    destruct (isAvailable && negb (isRecording (this w))); [|reflexivity].
    now destruct (resumeRecording_ledger now
                    (update (set_isStreamAvailable true) w)) as (-> & _).
  - now left.
  - left. unfold probeRearm, startContinuousMonitoring.
    destruct (isMonitoring (this w) && negb (isRecording (this w)));
      [|reflexivity].
    now destruct (negb (isMonitoring (this w)) || isRecording (this w)).
  - left. destruct (recordSegment now w) as [w' [a|]] eqn:Hstart; cbn [fst].
    + now apply recordSegment_started in Hstart
        as (_ & _ & _ & _ & _ & -> & _).
    + apply recordSegment_not_started in Hstart. now subst.
  - left. now destruct (onError_frame a w) as (-> & _).
  - left. unfold mergeSettled, mergeClose, unlinkSync.
    destruct (fs w !! concatFile m); cbn [fst snd]; [|reflexivity].
    destruct (code_is_zero code); cbn [fst snd]; cbn;
      now rewrite unlink_all_this.
  - now left.
  - left. now destruct (stop_effects w) as (_ & _ & -> & _).
  - now left.
Qed.

Lemma kept_or_sorted_length (l l' : list Recording) :
  kept_or_sorted l l' -> length l' = length l.
Proof.
  intros [->| ->]; [reflexivity|].
  apply Permutation_length, sort_by_index_perm.
Qed.

Lemma kept_or_sorted_Forall (P : Recording -> Prop) (l l' : list Recording) :
  kept_or_sorted l l' -> Forall P l -> Forall P l'.
Proof.
  intros [->| ->] Hl; [exact Hl|].
  now rewrite sort_by_index_perm.
Qed.

(** A list that carries 0, 1, 2, ... in order is sorted already. *)
Lemma kept_or_sorted_in_order (l l' : list Recording) :
  kept_or_sorted l l' ->
  map index l = seq 0 (length l) ->
  l' = l.
Proof.
  intros [->| ->] Hl; [reflexivity|].
  apply sort_by_index_id.
  assert (Hgen : forall n (k : list Recording),
             map index k = seq n (length k) -> StronglySorted by_index k).
  { clear. intros n k. revert n.
    induction k as [|r k IH]; intros n Hk; [constructor|].
    cbn in Hk. injection Hk as Hr Hk.
    constructor; [now apply (IH (S n))|].
    apply Forall_forall. intros r' Hin. unfold by_index.
    assert (Hi : index r' ∈ map index k)
      by (apply list_elem_of_fmap; now exists r').
    rewrite Hk in Hi. apply elem_of_seq in Hi. lia. }
  now apply (Hgen 0%nat).
Qed.

(** The number of retained segments never goes down within a session. *)
Lemma step_length (w : World) (ev : Event) :
  (forall durationMinutes finalOutputName now,
      ev <> StartRecording durationMinutes finalOutputName now) ->
  (length (recordings (this w))
   <= length (recordings (this (step w ev))))%nat.
Proof.
  intros Hev. pose proof (step_recordings w ev) as Hstep.
  destruct ev;
    try (apply kept_or_sorted_length in Hstep; rewrite Hstep; lia).
  - now destruct (Hev durationMinutes finalOutputName now).
  - cbn [step]. rewrite onClose_recordings.
    destruct (code_is_zero code && existsSync (segmentFile a) w);
      rewrite ?length_app; lia.
Qed.

(** The directory and the session id are those of the constructor. *)
Lemma step_names (w : World) (ev : Event) :
  outputDir (this (step w ev)) = outputDir (this w)
  /\ sessionId (this (step w ev)) = sessionId (this w).
Proof.
  destruct ev;
    try (split; [apply (kept_step outputDir) | apply (kept_step sessionId)];
         try reflexivity; intros; discriminate).
  cbn [step]. split; now apply kept_quickChecked.
Qed.

Lemma segmentPath_ext (r r' : Recorder) (n : nat) :
  outputDir r = outputDir r' -> sessionId r = sessionId r' ->
  segmentPath r n = segmentPath r' n.
Proof. unfold segmentPath. now intros -> ->. Qed.

Lemma resumeRecording_attempt (now : Z) (w w' : World) (a : Attempt) :
  resumeRecording now w = (w', Some a) ->
  segmentIndex a = length (recordings (this w))
  /\ segmentFile a = segmentPath (this w) (length (recordings (this w))).
Proof.
  unfold resumeRecording.
  destruct (isRecording (this w)); [discriminate|].
  destruct (totalDurationMs (this w) <=? recordedDurationMs (this w));
    [discriminate|].
  intros Hstart. apply recordSegment_started in Hstart as (_ & Hi & Hf & _).
  destruct (stopStreamMonitoring_frame w) as (Hrec & _).
  rewrite Hrec in Hi, Hf. split; [exact Hi|]. rewrite Hf.
  apply segmentPath_ext.
  - apply (kept_stopStreamMonitoring outputDir); reflexivity.
  - apply (kept_stopStreamMonitoring sessionId); reflexivity.
Qed.

(** Whatever callback creates it, a capture gets as index the number of
    segments retained at that moment, and the file named after it. *)
Lemma starts_attempt (w : World) (ev : Event) (a : Attempt) :
  starts w ev = Some a ->
  segmentIndex a = length (recordings (this w))
  /\ segmentFile a = segmentPath (this w) (length (recordings (this w))).
Proof.
  destruct ev; cbn [starts]; try discriminate.
  - unfold startRecordingChecked.
    destruct isInitiallyAvailable; [|discriminate].
    destruct (recordSegment now (update (set_isStreamAvailable true) w))
      as [w' [a'|]] eqn:Hstart; [|discriminate].
    cbn [snd]. intros Ha. injection Ha as ->.
    now apply recordSegment_started in Hstart as (_ & Hi & Hf & _).
  - unfold quickChecked. destruct isAvailable; [|discriminate].
    destruct (negb (isStreamAvailable (this w))); [|discriminate].
    destruct (resumeRecording _ _) as [w' [a'|]] eqn:Hstart; [|discriminate].
    cbn [snd]. intros Ha. injection Ha as ->.
    now apply resumeRecording_attempt in Hstart.
  - unfold probeVerified.
    destruct (isAvailable && negb (isRecording (this w))); [|discriminate].
    destruct (resumeRecording _ _) as [w' [a'|]] eqn:Hstart; [|discriminate].
    cbn [snd]. intros Ha. injection Ha as ->.
    now apply resumeRecording_attempt in Hstart.
  - destruct (recordSegment now w) as [w' [a'|]] eqn:Hstart; [|discriminate].
    cbn [snd]. intros Ha. injection Ha as ->.
    now apply recordSegment_started in Hstart as (_ & Hi & Hf & _).
Qed.

Lemma allowed_session (running : list Attempt) (ev : Event) :
  allowed running ev = true ->
  forall durationMinutes finalOutputName now,
    ev <> StartRecording durationMinutes finalOutputName now.
Proof. intros Hev ? ? ? ->. discriminate. Qed.

Lemma indexed_step
    (r0 : Recorder) (running : list Attempt) (w : World) (ev : Event) :
  allowed running ev = true ->
  indexed r0 running w ->
  indexed r0 (running_after running w ev) (step w ev).
Proof.
  intros Hev (Hdir & Hsid & Hrun & Hrec).
  destruct (step_names w ev) as [Hdir' Hsid'].
  split; [now rewrite Hdir'|]. split; [now rewrite Hsid'|].
  pose proof (step_length w ev (allowed_session running ev Hev)) as Hlen.
  assert (Hother :
            kept_or_sorted (recordings (this w))
                           (recordings (this (step w ev))) ->
            running_after running w ev = running ++ option_list (starts w ev) ->
            Forall (fun a =>
                      (segmentIndex a
                       <= length (recordings (this (step w ev))))%nat
                      /\ segmentFile a = segmentPath r0 (segmentIndex a))
                   (running_after running w ev)
            /\ Forall (fun r =>
                         (index r
                          < length (recordings (this (step w ev))))%nat
                         /\ file r = segmentPath r0 (index r))
                      (recordings (this (step w ev)))).
  { intros Hkept ->. split.
    - apply Forall_app. split.
      + eapply Forall_impl; [exact Hrun|]. cbn. intros a [Hi Hf].
        split; [lia | exact Hf].
      + destruct (starts w ev) as [a|] eqn:Hstart; [|constructor].
        apply starts_attempt in Hstart as [Hi Hf].
        constructor; [|constructor]. split; [lia|].
        rewrite Hf, Hi. now apply segmentPath_ext.
    - eapply kept_or_sorted_Forall; [exact Hkept|].
      eapply Forall_impl; [exact Hrec|]. cbn. intros r [Hi Hf].
      split; [lia | exact Hf]. }
  pose proof (step_recordings w ev) as Hstep.
  destruct ev; try (apply Hother; [exact Hstep | reflexivity]).
  - discriminate.
  - cbn [allowed] in Hev. apply is_running_elem in Hev.
    cbn [running_after]. split.
    + apply Forall_forall. intros b Hb. apply closed_elem in Hb.
      rewrite Forall_forall in Hrun. destruct (Hrun b Hb) as [Hi Hf].
      split; [lia | exact Hf].
    + rewrite Forall_forall in Hrun. destruct (Hrun a Hev) as [Hi Hf].
      cbn [step] in *. rewrite onClose_recordings in *.
      destruct (code_is_zero code && existsSync (segmentFile a) w).
      * rewrite length_app in *. cbn [length] in *.
        apply Forall_app. split.
        -- eapply Forall_impl; [exact Hrec|]. cbn. intros r [Hr Hrf].
           split; [lia | exact Hrf].
        -- constructor; [|constructor]. cbn. split; [lia | exact Hf].
      * exact Hrec.
Qed.

Lemma indexed_run (r0 : Recorder) (evs : list Event) :
  forall (running : list Attempt) (w : World),
    one_session running w evs = true ->
    indexed r0 running w ->
    exists running', indexed r0 running' (run w evs).
Proof.
  induction evs as [|ev evs IH]; intros running w Hevs Hw;
    [now exists running|].
  cbn [one_session] in Hevs. apply andb_true_iff in Hevs as [Hev Hevs].
  cbn. apply (IH _ _ Hevs). now apply indexed_step.
Qed.

Lemma in_order_step (running : list Attempt) (w : World) (ev : Event) :
  allowed running ev = true ->
  starts_idle running w ev = true ->
  in_order running w ->
  in_order (running_after running w ev) (step w ev).
Proof.
  intros Hev Hidle (Hseq & Hrun & Hone).
  assert (Hother :
            kept_or_sorted (recordings (this w))
                           (recordings (this (step w ev))) ->
            running_after running w ev = running ++ option_list (starts w ev) ->
            in_order (running_after running w ev) (step w ev)).
  { intros Hkept ->.
    apply kept_or_sorted_in_order in Hkept; [|exact Hseq].
    unfold in_order. rewrite Hkept. split; [exact Hseq|].
    unfold starts_idle in Hidle.
    destruct (starts w ev) as [a|] eqn:Hstart; cbn [option_list].
    - destruct running as [|b running]; [|discriminate]. cbn.
      apply starts_attempt in Hstart as [Hi _].
      split; [|lia]. constructor; [exact Hi | constructor].
    - rewrite app_nil_r. split; [exact Hrun | exact Hone]. }
  pose proof (step_recordings w ev) as Hstep.
  destruct ev; try (apply Hother; [exact Hstep | reflexivity]).
  - discriminate.
  - cbn [allowed] in Hev. apply is_running_elem in Hev.
    cbn [running_after]. rewrite (closed_only a running Hev Hone).
    rewrite Forall_forall in Hrun. specialize (Hrun a Hev).
    unfold in_order. cbn [step]. rewrite onClose_recordings.
    destruct (code_is_zero code && existsSync (segmentFile a) w).
    + rewrite map_app, length_app, seq_app, Hseq. cbn. rewrite Hrun.
      split; [reflexivity|]. split; [constructor | lia].
    + split; [exact Hseq|]. split; [constructor | cbn; lia].
Qed.

Lemma in_order_run (evs : list Event) :
  forall (running : list Attempt) (w : World),
    one_session running w evs = true ->
    one_at_a_time running w evs = true ->
    in_order running w ->
    map index (recordings (this (run w evs)))
    = seq 0 (length (recordings (this (run w evs)))).
Proof.
  induction evs as [|ev evs IH]; intros running w Hevs Hidle Hw;
    [apply Hw|].
  cbn [one_session one_at_a_time] in Hevs, Hidle.
  apply andb_true_iff in Hevs as [Hev Hevs].
  apply andb_true_iff in Hidle as [Hstart Hidle].
  cbn. apply (IH _ _ Hevs Hidle). now apply in_order_step.
Qed.

(** In creation order the captures of a session have the numbers of
    segments retained at their creation as indices, and these never go
    down. *)
Lemma attempts_indexed (evs : list Event) :
  forall (running : list Attempt) (w : World),
    one_session running w evs = true ->
    Forall (fun c => segmentIndex (snd c) = fst c
                     /\ (length (recordings (this w)) <= fst c)%nat)
           (attempts w evs)
    /\ StronglySorted le (map fst (attempts w evs)).
Proof.
  induction evs as [|ev evs IH]; intros running w Hevs;
    [split; constructor|].
  cbn [one_session] in Hevs. apply andb_true_iff in Hevs as [Hev Hevs].
  destruct (IH _ _ Hevs) as [Hall Hsorted].
  pose proof (step_length w ev (allowed_session running ev Hev)) as Hlen.
  assert (Hlater :
            Forall (fun c => segmentIndex (snd c) = fst c
                             /\ (length (recordings (this w)) <= fst c)%nat)
                   (attempts (step w ev) evs)).
  { eapply Forall_impl; [exact Hall|]. cbn. intros c [Hi Hc].
    split; [exact Hi | lia]. }
  cbn [attempts].
  destruct (starts w ev) as [a|] eqn:Hstart; cbn [app];
    [|split; [exact Hlater | exact Hsorted]].
  apply starts_attempt in Hstart as [Hi _].
  split.
  - constructor; [cbn; split; [exact Hi | lia] | exact Hlater].
  - cbn. constructor; [exact Hsorted|].
    apply Forall_fmap. eapply Forall_impl; [exact Hlater|].
    cbn. tauto.
Qed.

(** C3 (as the code has it): the index of a capture is the number of
    segments retained when it is created, whichever callback creates it.
    So in creation order the indices never go down, but they do repeat: a
    capture created when nothing was retained since the last one gets
    that one's index again.  Every retained segment has an index below
    the number of retained segments.  As long as no capture is started
    while another one runs, the retained segments carry 0, 1, 2, ... in
    order. *)
Theorem session_indices (w : World) (evs : list Event) :
  recordings (this w) = [] ->
  one_session [] w evs = true ->
  Forall (fun c => segmentIndex (snd c) = fst c) (attempts w evs)
  /\ StronglySorted le
       (map (fun c => segmentIndex (snd c)) (attempts w evs))
  /\ Forall (fun r => (index r < length (recordings (this (run w evs))))%nat)
            (recordings (this (run w evs)))
  /\ (one_at_a_time [] w evs = true ->
      map index (recordings (this (run w evs)))
      = seq 0 (length (recordings (this (run w evs))))).
Proof.
  intros Hnone Hevs.
  destruct (attempts_indexed evs [] w Hevs) as [Hall Hsorted].
  split; [eapply Forall_impl; [exact Hall|]; cbn; tauto|].
  split.
  - replace (map (fun c => segmentIndex (snd c)) (attempts w evs))
      with (map fst (attempts w evs)); [exact Hsorted|].
    apply Forall_fmap_ext_1. eapply Forall_impl; [exact Hall|].
    cbn. intros c [Hi _]. now rewrite Hi.
  - split.
    + destruct (indexed_run (this w) evs [] w Hevs) as (running & Hw).
      * unfold indexed. rewrite Hnone. repeat split; constructor.
      * destruct Hw as (_ & _ & _ & Hrec).
        eapply Forall_impl; [exact Hrec|]. cbn. tauto.
    + intros Hidle. apply (in_order_run evs [] w Hevs Hidle).
      unfold in_order. rewrite Hnone. cbn.
      split; [reflexivity|]. split; [constructor | lia].
Qed.

(** X10: Every segment retained in a session is named after the recorder's
    directory and session id and its own index, whichever callbacks
    started the captures.  As long as no capture is started while another
    one runs, no two retained segments have the same index; so where
    different indices give different paths, no retained file is listed
    twice in a manifest or overwritten by a later retained segment. *)
Theorem session_files_distinct (w : World) (evs : list Event) :
  recordings (this w) = [] ->
  one_session [] w evs = true ->
  Forall (fun r => file r = segmentPath (this w) (index r))
         (recordings (this (run w evs)))
  /\ (one_at_a_time [] w evs = true ->
      NoDup (map index (recordings (this (run w evs))))
      /\ (Inj (=) (=) (segmentPath (this w)) ->
          NoDup (map file (recordings (this (run w evs)))))).
Proof.
  intros Hnone Hevs.
  assert (Hfiles :
            Forall (fun r => file r = segmentPath (this w) (index r))
                   (recordings (this (run w evs)))).
  { destruct (indexed_run (this w) evs [] w Hevs) as (running & Hw).
    - unfold indexed. rewrite Hnone. repeat split; constructor.
    - destruct Hw as (_ & _ & _ & Hrec).
      eapply Forall_impl; [exact Hrec|]. cbn. tauto. }
  split; [exact Hfiles|].
  intros Hidle.
  assert (Hidx : map index (recordings (this (run w evs)))
                 = seq 0 (length (recordings (this (run w evs))))).
  { apply (in_order_run evs [] w Hevs Hidle).
    unfold in_order. rewrite Hnone. cbn.
    split; [reflexivity|]. split; [constructor | lia]. }
  split; [rewrite Hidx; apply NoDup_seq|].
  intros Hinj.
  assert (Hmap : map file (recordings (this (run w evs)))
                 = map (segmentPath (this w))
                       (map index (recordings (this (run w evs))))).
  { rewrite map_map. apply Forall_fmap_ext_1.
    eapply Forall_impl; [exact Hfiles|]. auto. }
  rewrite Hmap, Hidx.
  apply (NoDup_fmap_2 (segmentPath (this w))), NoDup_seq.
Qed.

End Recorder.

(** *** The status snapshot *)

Lemma progress_of_zero_total (r : Recorder) :
  totalDurationMs r = 0 ->
  recordedDurationMs r = 0 ->
  PrimFloat.is_nan (progress (getStatus r)) = true.
Proof. intros Ht Hr. unfold getStatus. cbn. rewrite Ht, Hr. reflexivity. Qed.

Lemma stops_keep_durations (n : nat) (w : World) :
  totalDurationMs (this (Nat.iter n stop w)) = totalDurationMs (this w)
  /\ recordedDurationMs (this (Nat.iter n stop w))
     = recordedDurationMs (this w).
Proof.
  induction n as [|n [IHt IHr]]; [auto|]. rewrite Nat.iter_succ.
  destruct (stop_keeps_durations (Nat.iter n stop w)) as [Ht Hr].
  rewrite Ht, Hr. auto.
Qed.

(** C10: on a recorder on which [startRecording] was never called (it was
    constructed, and possibly stopped any number of times),
    [totalDurationMs] is 0 and [getStatus] computes [progress] as the floor
    of 0/0 times 100, which is NaN and not 0. *)
Theorem getStatus_before_startRecording
    (url dir : string) (now : Z) (files : gmap string string) (n : nat) :
  let r := this (Nat.iter n stop (new_world url dir now files)) in
  totalDurationMs r = 0
  /\ PrimFloat.is_nan (progress (getStatus r)) = true
  /\ PrimFloat.eqb (progress (getStatus r)) 0%float = false.
Proof.
  cbv zeta.
  destruct (stops_keep_durations n (new_world url dir now files)) as [Ht Hr].
  cbn in Ht, Hr.
  pose proof (progress_of_zero_total _ Ht Hr) as Hnan.
  split; [exact Ht|]. split; [exact Hnan|].
  revert Hnan. unfold getStatus. cbn. rewrite Ht, Hr. reflexivity.
Qed.

(** *** The shallow availability probe *)

Section ProbeProperties.

Import Probe.

Variable URL_new : string -> option URL.

Lemma resolve_settled (value : bool) (st : ProbeState) :
  promise st <> Pending -> resolve value st = st.
Proof. unfold resolve. destruct (promise st); congruence. Qed.

Lemma handle_settled (st : ProbeState) (ev : ProbeEvent) :
  promise st <> Pending -> promise (handle st ev) = promise st.
Proof.
  intros Hst. destruct ev; cbn; try destruct (timeout st);
    try rewrite resolve_settled; cbn; auto.
Qed.

(** A settled promise keeps its value whatever arrives later. *)
Lemma settled_stays (evs : list ProbeEvent) (st : ProbeState) :
  promise st <> Pending -> promise (foldl handle st evs) = promise st.
Proof.
  revert st. induction evs as [|ev evs IH]; intros st Hst; [reflexivity|].
  cbn. rewrite IH; rewrite handle_settled; auto.
Qed.

(** The first callback to run settles a pending promise with an armed
    timer. *)
Lemma first_event_settles (st : ProbeState) (ev : ProbeEvent) :
  promise st = Pending ->
  timeout st = true ->
  promise (handle st ev)
  = Resolved match ev with
             | Response statusCode => isAvailable statusCode
             | _ => false
             end.
Proof.
  intros Hp Ht. destruct ev; cbn; unfold resolve; cbn;
    rewrite ?Ht; cbn; rewrite Hp; reflexivity.
Qed.

Lemma isAvailable_spec (statusCode : Z) :
  isAvailable statusCode = true <-> statusCode = 200 \/ statusCode = 206.
Proof. unfold isAvailable. lia. Qed.

(** A string that [new URL] refuses makes the executor throw: the promise
    is rejected, whatever arrives. *)
Lemma checkStreamAvailability_invalid_url
    (streamUrl : string) (evs : list ProbeEvent) :
  URL_new streamUrl = None ->
  checkStreamAvailability URL_new streamUrl evs = Rejected.
Proof.
  intros Hurl. unfold checkStreamAvailability.
  rewrite settled_stays; unfold executor; rewrite Hurl; cbn; congruence.
Qed.

(** C9 (as the code has it): for a stream URL that [new URL] accepts, the
    probe sends one header-only request and arms the three-second timer;
    its promise is pending until a callback runs, is never rejected, and
    the first callback to run resolves it for good: to true exactly when
    that callback is a response with status 200 or 206, to false when it
    is the timer, the request's timeout or a request error.  For a string
    that [new URL] refuses no request is made and the promise is rejected,
    whatever arrives. *)
Theorem checkStreamAvailability_settles (streamUrl : string) :
  match URL_new streamUrl with
  | Some url =>
      req (executor URL_new streamUrl)
      = Some (if String.eqb (protocol url) "https:" then https else http,
              {| opt_hostname := hostname url;
                 opt_port := port url;
                 opt_path := pathname url +:+ search url;
                 opt_method := "HEAD";
                 opt_timeout := 3000 |})
      /\ timeout (executor URL_new streamUrl) = true
      /\ checkStreamAvailability URL_new streamUrl [] = Pending
      /\ (forall evs,
            checkStreamAvailability URL_new streamUrl evs <> Rejected)
      /\ (forall ev evs,
            exists available,
              checkStreamAvailability URL_new streamUrl (ev :: evs)
                = Resolved available
              /\ (available = true <->
                  exists statusCode,
                    ev = Response statusCode
                    /\ (statusCode = 200 \/ statusCode = 206)))
  | None =>
      req (executor URL_new streamUrl) = None
      /\ forall evs, checkStreamAvailability URL_new streamUrl evs = Rejected
  end.
Proof.
  destruct (URL_new streamUrl) as [url|] eqn:Hurl.
  - assert (Hp : promise (executor URL_new streamUrl) = Pending)
      by (unfold executor; now rewrite Hurl).
    assert (Ht : timeout (executor URL_new streamUrl) = true)
      by (unfold executor; now rewrite Hurl).
    split; [unfold executor; now rewrite Hurl|].
    split; [exact Ht|]. split; [exact Hp|]. split.
    + intros [|ev evs]; unfold checkStreamAvailability; cbn.
      * rewrite Hp. discriminate.
      * rewrite settled_stays;
          rewrite (first_event_settles _ ev Hp Ht); discriminate.
    + intros ev evs. unfold checkStreamAvailability. cbn.
      rewrite settled_stays;
        rewrite (first_event_settles _ ev Hp Ht); [|discriminate].
      eexists. split; [reflexivity|].
      destruct ev as [statusCode| | |].
      * rewrite isAvailable_spec. split.
        -- intros H. exists statusCode. auto.
        -- intros (sc & Heq & H). now inversion Heq; subst.
      * split; [discriminate|]. intros (sc & Heq & _). discriminate.
      * split; [discriminate|]. intros (sc & Heq & _). discriminate.
      * split; [discriminate|]. intros (sc & Heq & _). discriminate.
  - split; [unfold executor; now rewrite Hurl|].
    intros evs. now apply checkStreamAvailability_invalid_url.
Qed.

End ProbeProperties.

(** *** The standalone retry loop *)

(** An exit less than five seconds after the spawn is rejected, whatever
    the exit code and signal. *)
Lemma onExit_quick
    (startTime now : Z) (code : option Z) (signal : option string)
    (filename : string) :
  now - startTime < 5000 ->
  Naive.onExit startTime now code signal filename
  = Naive.rejected (Error "Stream down or FFmpeg failed quickly.").
Proof.
  intros Hquick. unfold Naive.onExit.
  assert (H : (now - startTime) / 1000 < 5)
    by (apply Z.div_lt_upper_bound; lia).
  apply Z.ltb_lt in H. now rewrite H.
Qed.

Lemma onExit_slow
    (startTime now : Z) (code : option Z) (signal : option string)
    (filename : string) :
  5000 <= now - startTime ->
  Naive.onExit startTime now code signal filename
  = Naive.resolved ((now - startTime) / 1000) filename.
Proof.
  intros Hslow. unfold Naive.onExit.
  assert (H : 5 <= (now - startTime) / 1000)
    by (apply Z.div_le_lower_bound; lia).
  apply Z.ltb_ge in H. now rewrite H.
Qed.

(** The attempt counter of the loop goes up by one in every iteration. *)
Lemma iteration_attempt (s : Naive.Settled) (st : Naive.State) :
  Naive.attempt (Naive.iteration s st) = Naive.attempt st + 1.
Proof. destruct s; reflexivity. Qed.

(** C2 (as the code has it): the [close] listener of the recorder retains
    a segment exactly when the exit code is 0 and the destination file
    exists, and adds the time the subprocess ran to the recorded duration;
    how long it ran does not enter the decision.  The rule on the elapsed
    time is that of the standalone loop: an exit less than five seconds
    after the spawn is rejected whatever the exit code, and a rejection adds
    nothing to [totalRecorded]. *)
Theorem capture_outcome_by_exit_code :
  (forall a code now w,
      recordings (this (onClose a code now w))
      = (if code_is_zero code && existsSync (segmentFile a) w
         then recordings (this w)
                ++ [{| file := segmentFile a;
                       duration := now - segmentStartTime a;
                       index := segmentIndex a |}]
         else recordings (this w))
      /\ recordedDurationMs (this (onClose a code now w))
         = (if code_is_zero code && existsSync (segmentFile a) w
            then recordedDurationMs (this w) + (now - segmentStartTime a)
            else recordedDurationMs (this w)))
  /\ (forall startTime now code signal filename,
        now - startTime < 5000 ->
        Naive.onExit startTime now code signal filename
        = Naive.rejected (Error "Stream down or FFmpeg failed quickly."))
  /\ (forall e st,
        Naive.totalRecorded (Naive.iteration (Naive.rejected e) st)
        = Naive.totalRecorded st).
Proof.
  split; [|split].
  - intros a code now w. split.
    + apply onClose_recordings.
    + apply onClose_recordedDurationMs.
  - apply onExit_quick.
  - reflexivity.
Qed.

(** ** The recorder on concrete inputs *)

Definition t0 : Z := 1700000000000.

Definition world0 : World :=
  new_world "https://example.org/live" "/rec" t0 ∅.

(** [startRecording(2, "out.mp4")] has run up to its first [await]. *)
Definition started : World := startRecording 2 (Some "out.mp4") t0 world0.

Definition segment0 : string := "/rec/segment_1700000000000_0.mp4".
Definition segment1 : string := "/rec/segment_1700000000000_1.mp4".

(** The first attempt of the session. *)
Definition attempt0 : Attempt :=
  {| segmentIndex := 0; segmentFile := segment0; segmentStartTime := t0;
     process := 0 |}.

(** The second attempt, started by the timer a retained segment sets. *)
Definition attempt1 : Attempt :=
  {| segmentIndex := 1; segmentFile := segment1;
     segmentStartTime := t0 + 60100; process := 1 |}.

(** Two segments of sixty seconds each, both retained. *)
Definition two_segments : World :=
  run posix_join posix_resolve started
      [InitialCheck "out.mp4" true t0;
       SubprocessWrites segment0 "AAAA";
       Close attempt0 (Some 0) (t0 + 60000);
       NextSegment (t0 + 60100);
       SubprocessWrites segment1 "BBBB";
       Close attempt1 (Some 0) (t0 + 120100)].

(** The merge of the two segments has been spawned by [checkCompletion]. *)
Definition merging : World :=
  fst (checkCompletion posix_join posix_resolve "out.mp4" two_segments).

Definition merge0 : Merge :=
  {| finalPath := "/rec/out.mp4";
     concatFile := "/rec/concat_1700000000000.txt";
     mergeProcess := 2 |}.

(** The stream is up, the first capture runs, and [stop] is called. *)
Definition capturing : World :=
  run posix_join posix_resolve world0
      [StartRecording 2 (Some "out.mp4") t0; InitialCheck "out.mp4" true t0].

(** The [-t] value of the command spawned last. *)
Definition requested (w : World) : option string :=
  match last (actions w) with
  | Some (Spawn _ _ args) => option_after "-t" args
  | _ => None
  end.

(** *** Merging *)

Example merging_spawned :
  snd (checkCompletion posix_join posix_resolve "out.mp4" two_segments)
  = Some (MergeSpawned merge0).
Proof. vm_compute. reflexivity. Qed.

(** C1 at the failing input: two retained segments, both files on disk,
    and the merge subprocess exits with code 1.  The promise is rejected
    with "Merge failed with code 1", and both segment files are gone. *)
Lemma merge_failure_loses_segments :
  fs merging !! segment0 = Some "AAAA"
  /\ fs merging !! segment1 = Some "BBBB"
  /\ exists w',
       mergeClose merge0 (Some 1) merging
       = (w', MergeRejected (Error "Merge failed with code 1"))
       /\ fs w' !! segment0 = None
       /\ fs w' !! segment1 = None.
Proof.
  split; [vm_compute; reflexivity|]. split; [vm_compute; reflexivity|].
  destruct (mergeClose_failure_deletes_inputs merge0 (Some 1) merging)
    as (w' & Hclose & _ & Hgone).
  - unfold is_Some. eexists. vm_compute. reflexivity.
  - reflexivity.
  - exists w'. split; [exact Hclose|]. split.
    + apply (Hgone {| file := segment0; duration := 60000; index := 0 |}).
      vm_compute. apply list_elem_of_here.
    + apply (Hgone {| file := segment1; duration := 60000; index := 1 |}).
      vm_compute. apply list_elem_of_further, list_elem_of_here.
Defined.

Lemma mergeRecordings_empty_witness :
  mergeRecordings posix_join posix_resolve "out.mp4" started
  = (started, MergeThrew (Error "No recordings to merge")).
Proof.
  apply (mergeRecordings_empty posix_join posix_resolve "out.mp4" started).
  reflexivity.
Defined.

(** One segment reached the target: the merge is a rename. *)
Definition one_segment : World :=
  run posix_join posix_resolve started
      [InitialCheck "out.mp4" true t0;
       SubprocessWrites segment0 "AAAA";
       Close attempt0 (Some 0) (t0 + 120000)].

Lemma mergeRecordings_single_witness :
  exists w',
    mergeRecordings posix_join posix_resolve "out.mp4" one_segment
    = (w', MergeReturned "/rec/out.mp4")
    /\ fs w' !! "/rec/out.mp4" = Some "AAAA"
    /\ actions w' = actions one_segment.
Proof.
  destruct (mergeRecordings_single posix_join posix_resolve "out.mp4"
              one_segment
              {| file := segment0; duration := 120000; index := 0 |} "AAAA")
    as (w' & Hmerge & Hfile & _ & Hact & _).
  - vm_compute. reflexivity.
  - vm_compute. reflexivity.
  - exists w'. split; [exact Hmerge|]. split; [exact Hfile | exact Hact].
Defined.

(** *** How a recording attempt ends *)

(** The first capture runs, and a file is at its destination already. *)
Definition stale : World := writeFileSync segment0 "OLD" capturing.

(** A subprocess that could not be spawned (ENOENT) while a file is at the
    destination, and one that exits with code 1 after two seconds and a
    partly written file. *)
Lemma failed_attempt_is_discarded_witness :
  (fs stale !! segmentFile attempt0 = Some "OLD"
   /\ recordings
        (this (settle attempt0 (SpawnFailed 2 10)
                 (subprocessRan attempt0 (SpawnFailed 2 10) stale)))
      = recordings (this stale)
   /\ fs (settle attempt0 (SpawnFailed 2 10)
            (subprocessRan attempt0 (SpawnFailed 2 10) stale))
      !! segmentFile attempt0 = None
   /\ isMonitoring
        (this (settle attempt0 (SpawnFailed 2 10)
                 (subprocessRan attempt0 (SpawnFailed 2 10) stale)))
      = true)
  /\ (retained attempt0 (Exited (Some 1) (Some "AA") 2000)
        (subprocessRan attempt0 (Exited (Some 1) (Some "AA") 2000) capturing)
      = false
      /\ fs (settle attempt0 (Exited (Some 1) (Some "AA") 2000)
               (subprocessRan attempt0 (Exited (Some 1) (Some "AA") 2000)
                  capturing))
         !! segmentFile attempt0 = None).
Proof.
  assert (H2 : retained attempt0 (Exited (Some 1) (Some "AA") 2000)
                 (subprocessRan attempt0 (Exited (Some 1) (Some "AA") 2000)
                    capturing) = false)
    by (vm_compute; reflexivity).
  split.
  - destruct (failed_attempt_is_discarded attempt0 (SpawnFailed 2 10) stale
                eq_refl)
      as (Hrec & _ & Hfs & Hmon & _).
    split; [vm_compute; reflexivity|].
    split; [exact Hrec|]. split; [exact Hfs | exact Hmon].
  - destruct (failed_attempt_is_discarded attempt0
                (Exited (Some 1) (Some "AA") 2000) capturing H2)
      as (_ & _ & Hfs & _).
    split; [exact H2 | exact Hfs].
Defined.

(** C2, counterexample: the capture subprocess exits one second after the
    spawn with code 0 and the file in place; the attempt is retained and
    appended to the segment list. *)
Lemma quick_exit_is_retained :
  let end_of_session :=
    run posix_join posix_resolve started
        [InitialCheck "out.mp4" true t0;
         SubprocessWrites segment0 "AAAA";
         Close attempt0 (Some 0) (t0 + 1000)] in
  attempts posix_join posix_resolve started [InitialCheck "out.mp4" true t0]
  = [(0%nat, attempt0)]
  /\ recordings (this end_of_session)
     = [{| file := segment0; duration := 1000; index := 0 |}]
  /\ recordedDurationMs (this end_of_session) = 1000.
Proof. vm_compute. repeat split; reflexivity. Qed.

Lemma capture_outcome_by_exit_code_witness :
  recordings
    (this (onClose attempt0 (Some 0) (t0 + 1000)
             (writeFileSync segment0 "AAAA" capturing)))
  = [{| file := segment0; duration := 1000; index := 0 |}]
  /\ Naive.onExit t0 (t0 + 4000) (Some 0) None "segment_1.mp4"
     = Naive.rejected (Error "Stream down or FFmpeg failed quickly.").
Proof.
  destruct capture_outcome_by_exit_code as (Hclose & Hquick & _).
  split.
  - destruct (Hclose attempt0 (Some 0) (t0 + 1000)
                (writeFileSync segment0 "AAAA" capturing)) as [Hrec _].
    rewrite Hrec. vm_compute. reflexivity.
  - apply Hquick. vm_compute. reflexivity.
Defined.

(** *** Segment indices *)

(** The capture that the quick check starts after the first one failed. *)
Definition retry0 : Attempt :=
  {| segmentIndex := 0; segmentFile := segment0;
     segmentStartTime := t0 + 5000; process := 3 |}.

(** The first attempt fails, the quick check finds the stream back, and
    the second attempt is retained: one capture after the other. *)
Definition failure_then_success : list Event :=
  [InitialCheck "out.mp4" true t0;
   Close attempt0 (Some 1) (t0 + 2000);
   QuickChecked true (t0 + 5000);
   SubprocessWrites segment0 "AAAA";
   Close retry0 (Some 0) (t0 + 65000)].

(** C3, counterexample: the first attempt fails, the stream comes back,
    and the second attempt is given index 0 again, in a session in which
    no two captures ever run at once. *)
Lemma failed_index_is_reused :
  one_session posix_join posix_resolve [] started failure_then_success = true
  /\ one_at_a_time posix_join posix_resolve [] started failure_then_success
     = true
  /\ map (fun c => segmentIndex (snd c))
       (attempts posix_join posix_resolve started failure_then_success)
     = [0; 0]%nat
  /\ ~ StronglySorted lt
       (map (fun c => segmentIndex (snd c))
          (attempts posix_join posix_resolve started failure_then_success)).
Proof.
  assert (H : map (fun c => segmentIndex (snd c))
                (attempts posix_join posix_resolve started
                   failure_then_success)
              = [0; 0]%nat) by (vm_compute; reflexivity).
  split; [vm_compute; reflexivity|]. split; [vm_compute; reflexivity|].
  split; [exact H|]. rewrite H. intros Hsorted.
  apply StronglySorted_inv in Hsorted as [_ Hlt].
  apply Forall_cons in Hlt as [Hlt _]. lia.
Qed.

(** The same session, continued by a third capture that is retained. *)
Definition three_attempts : list Event :=
  failure_then_success
    ++ [NextSegment (t0 + 65100);
        SubprocessWrites segment1 "BBBB";
        Close {| segmentIndex := 1; segmentFile := segment1;
                 segmentStartTime := t0 + 65100; process := 4 |}
              (Some 0) (t0 + 125100)].

Lemma session_indices_witness :
  StronglySorted le
    (map (fun c => segmentIndex (snd c))
       (attempts posix_join posix_resolve started three_attempts))
  /\ map index
       (recordings (this (run posix_join posix_resolve started
                            three_attempts)))
     = [0; 1]%nat.
Proof.
  destruct (session_indices posix_join posix_resolve started three_attempts)
    as (_ & Hsorted & _ & Hseq).
  - vm_compute. reflexivity.
  - vm_compute. reflexivity.
  - split; [exact Hsorted|]. rewrite Hseq; vm_compute; reflexivity.
Defined.

(** The capture that the quick check starts in [overlapping], and the two
    that run at once: one started by the verification that the deep probe
    asked for, one by the timer that the retained segment set. *)
Definition retry1 : Attempt :=
  {| segmentIndex := 0; segmentFile := segment0;
     segmentStartTime := t0 + 4000; process := 3 |}.
Definition verified1 : Attempt :=
  {| segmentIndex := 1; segmentFile := segment1;
     segmentStartTime := t0 + 5050; process := 4 |}.
Definition timer1 : Attempt :=
  {| segmentIndex := 1; segmentFile := segment1;
     segmentStartTime := t0 + 5100; process := 5 |}.

(** The first attempt fails; the deep probe exits cleanly and asks for a
    verification; the quick check finds the stream first and starts a
    capture, which exits with code 0 after one second and is retained;
    then the verification arrives, and then the 100 ms timer. *)
Definition overlapping : list Event :=
  [InitialCheck "out.mp4" true t0;
   Close attempt0 (Some 1) (t0 + 2000);
   ProbeClose (Some 0);
   QuickChecked true (t0 + 4000);
   SubprocessWrites segment0 "AAAA";
   Close retry1 (Some 0) (t0 + 5000);
   ProbeVerified true (t0 + 5050);
   NextSegment (t0 + 5100);
   SubprocessWrites segment1 "BBBB";
   Close verified1 (Some 0) (t0 + 35050);
   Close timer1 (Some 0) (t0 + 35100)].

(** Two captures that run at once get the same index and write the same
    file, and both are retained. *)
Example overlapping_captures_share_an_index :
  one_session posix_join posix_resolve [] started overlapping = true
  /\ one_at_a_time posix_join posix_resolve [] started overlapping = false
  /\ map snd (attempts posix_join posix_resolve started overlapping)
     = [attempt0; retry1; verified1; timer1]
  /\ map index
       (recordings (this (run posix_join posix_resolve started overlapping)))
     = [0; 1; 1]%nat
  /\ map file
       (recordings (this (run posix_join posix_resolve started overlapping)))
     = [segment0; segment1; segment1].
Proof. vm_compute. repeat split; reflexivity. Qed.

(** *** The recorded duration and the target *)

(** One segment of 60.5 seconds is retained; 59.5 seconds remain. *)
Definition after_first_segment : World :=
  run posix_join posix_resolve world0
      [StartRecording 2 (Some "out.mp4") t0;
       InitialCheck "out.mp4" true t0;
       SubprocessWrites segment0 "AAAA";
       Close attempt0 (Some 0) (t0 + 60500)].

(** C5, counterexample: with 59500 ms of the target left, the next capture
    is started with [-t 60]: sixty seconds, not the 59.5 that remain. *)
Lemma requested_duration_is_rounded_up :
  totalDurationMs (this after_first_segment)
  - recordedDurationMs (this after_first_segment) = 59500
  /\ requested
       (fst (recordSegment posix_join (t0 + 60600) after_first_segment))
     = Some "60"
  /\ 60 * 1000
     <> totalDurationMs (this after_first_segment)
        - recordedDurationMs (this after_first_segment).
Proof. vm_compute. repeat split; congruence. Qed.

(** The same session, with both segments retained and the target met. *)
Definition target_met : World :=
  run posix_join posix_resolve world0
      [StartRecording 2 (Some "out.mp4") t0;
       InitialCheck "out.mp4" true t0;
       SubprocessWrites segment0 "AAAA";
       Close attempt0 (Some 0) (t0 + 60000);
       NextSegment (t0 + 60100);
       SubprocessWrites segment1 "BBBB";
       Close {| segmentIndex := 1; segmentFile := segment1;
                segmentStartTime := t0 + 60100; process := 1 |}
             (Some 0) (t0 + 120100)].

Lemma after_first_segment_reachable :
  reachable posix_join posix_resolve after_first_segment.
Proof.
  exists "https://example.org/live", "/rec", t0, ∅,
    [StartRecording 2 (Some "out.mp4") t0;
     InitialCheck "out.mp4" true t0;
     SubprocessWrites segment0 "AAAA";
     Close attempt0 (Some 0) (t0 + 60500)].
  vm_compute. reflexivity.
Defined.

Lemma target_met_reachable : reachable posix_join posix_resolve target_met.
Proof.
  exists "https://example.org/live", "/rec", t0, ∅,
    [StartRecording 2 (Some "out.mp4") t0;
     InitialCheck "out.mp4" true t0;
     SubprocessWrites segment0 "AAAA";
     Close attempt0 (Some 0) (t0 + 60000);
     NextSegment (t0 + 60100);
     SubprocessWrites segment1 "BBBB";
     Close {| segmentIndex := 1; segmentFile := segment1;
              segmentStartTime := t0 + 60100; process := 1 |}
           (Some 0) (t0 + 120100)].
  vm_compute. reflexivity.
Defined.

Lemma capture_respects_target_witness :
  (recordedDurationMs (this after_first_segment)
   < totalDurationMs (this after_first_segment)
   /\ requested
        (fst (recordSegment posix_join (t0 + 60600) after_first_segment))
      = Some "60")
  /\ (totalDurationMs (this target_met) <= recordedDurationMs (this target_met)
      /\ recordSegment posix_join (t0 + 120200) target_met
         = (target_met, None))
  /\ recordedDurationMs (this target_met)
     = sum_durations (recordings (this target_met)).
Proof.
  destruct (capture_respects_target posix_join posix_resolve
              after_first_segment (t0 + 60600) "out.mp4"
              after_first_segment_reachable) as (Hstart & _ & _ & _).
  destruct (capture_respects_target posix_join posix_resolve
              target_met (t0 + 120200) "out.mp4" target_met_reachable)
    as (_ & Hdone & _ & Hmerge).
  assert (Hspawned :
            recordSegment posix_join (t0 + 60600) after_first_segment
            = (fst (recordSegment posix_join (t0 + 60600)
                      after_first_segment),
               Some {| segmentIndex := 1; segmentFile := segment1;
                       segmentStartTime := t0 + 60600; process := 1 |}))
    by (vm_compute; reflexivity).
  assert (Hmet : totalDurationMs (this target_met)
                 <= recordedDurationMs (this target_met))
    by (vm_compute; discriminate).
  assert (Hcalled :
            checkCompletion posix_join posix_resolve "out.mp4" target_met
            = (fst (checkCompletion posix_join posix_resolve "out.mp4"
                      target_met),
               Some (MergeSpawned merge0)))
    by (vm_compute; reflexivity).
  split; [|split].
  - destruct (Hstart _ _ Hspawned) as (Hlt & args & Hlast & Hafter & _).
    split; [exact Hlt|].
    unfold requested. rewrite Hlast, Hafter. vm_compute. reflexivity.
  - destruct (Hdone Hmet) as [Hnone _]. split; [exact Hmet | exact Hnone].
  - destruct (Hmerge _ _ Hcalled) as (_ & _ & Hsum). exact Hsum.
Defined.

(** *** Stopping *)

(** C6 at the failing input: [stop] is called while the first capture
    runs, and the signalled process closes thirty seconds in, ended by the
    signal.  [stop] sent SIGTERM and switched monitoring off; the [close]
    listener switches it on again. *)
Lemma stop_does_not_last_witness :
  last (actions (stop capturing)) = Some (Kill 0 "SIGTERM")
  /\ isMonitoring (this (stop capturing)) = false
  /\ quickCheckInterval (this (stop capturing)) = None
  /\ isMonitoring (this (onClose attempt0 None (t0 + 30000) (stop capturing)))
     = true
  /\ quickCheckInterval
       (this (onClose attempt0 None (t0 + 30000) (stop capturing)))
     = Some 1%nat.
Proof.
  destruct (stop_does_not_last attempt0 None (t0 + 30000) capturing)
    as (Hoff & Hclear & Hon & Hinterval & _); [reflexivity|].
  split; [vm_compute; reflexivity|].
  split; [exact Hoff|]. split; [exact Hclear|].
  split; [exact Hon|]. rewrite Hinterval. vm_compute. reflexivity.
Defined.

(** After that, the next quick check finds the stream, a new capture is
    spawned, and when it has run for the whole target the session is
    completed by a merge, as if [stop] had not been called. *)
Example stopped_session_completes :
  let w :=
    run posix_join posix_resolve world0
        [StartRecording 2 (Some "out.mp4") t0;
         InitialCheck "out.mp4" true t0;
         Stop;
         Close attempt0 None (t0 + 30000);
         QuickCheck;
         QuickChecked true (t0 + 32000);
         SubprocessWrites segment0 "AAAA";
         Close {| segmentIndex := 0; segmentFile := segment0;
                  segmentStartTime := t0 + 32000; process := 3 |}
               (Some 0) (t0 + 152000);
         CheckCompletion "out.mp4"] in
  last (actions w) = Some (Resolve "out.mp4")
  /\ fs w !! "/rec/out.mp4" = Some "AAAA".
Proof. vm_compute. split; reflexivity. Qed.

(** *** The probe and the status on concrete inputs *)

(** A runtime that parses every string to the same URL. *)
Definition parse_live (_ : string) : option Probe.URL :=
  Some {| Probe.protocol := "https:";
          Probe.hostname := "example.org";
          Probe.port := EmptyString;
          Probe.pathname := "/live";
          Probe.search := EmptyString |}.

Lemma checkStreamAvailability_settles_witness :
  Probe.checkStreamAvailability parse_live "https://example.org/live" []
  <> Probe.Rejected
  /\ exists available,
       Probe.checkStreamAvailability parse_live "https://example.org/live"
         [Probe.Response 206; Probe.TimerExpired]
       = Probe.Resolved available.
Proof.
  destruct (checkStreamAvailability_settles parse_live
              "https://example.org/live")
    as (_ & _ & _ & Hnever & Hfirst).
  split; [apply Hnever|].
  destruct (Hfirst (Probe.Response 206) [Probe.TimerExpired])
    as (available & Hres & _).
  exists available. exact Hres.
Defined.

(** A runtime whose [new URL] refuses the string. *)
Definition parse_refused (_ : string) : option Probe.URL := None.

(** C9, counterexample: the stream URL "example.org/live" has no scheme
    and [new URL] refuses it; the promise is rejected and no callback
    resolves it to a boolean. *)
Lemma unparsable_url_is_rejected :
  Probe.checkStreamAvailability parse_refused "example.org/live" []
  = Probe.Rejected
  /\ Probe.checkStreamAvailability parse_refused "example.org/live"
       [Probe.TimerExpired]
     = Probe.Rejected
  /\ Probe.checkStreamAvailability parse_refused "example.org/live"
       [Probe.Response 200]
     <> Probe.Resolved true.
Proof. repeat split; try reflexivity. discriminate. Qed.

Example probe_available :
  Probe.checkStreamAvailability parse_live "https://example.org/live"
    [Probe.Response 200]
  = Probe.Resolved true.
Proof. reflexivity. Qed.

Example probe_forbidden :
  Probe.checkStreamAvailability parse_live "https://example.org/live"
    [Probe.Response 403]
  = Probe.Resolved false.
Proof. reflexivity. Qed.

Example probe_late_response :
  Probe.checkStreamAvailability parse_live "https://example.org/live"
    [Probe.TimerExpired; Probe.Response 200]
  = Probe.Resolved false.
Proof. reflexivity. Qed.

Example Math_floor_pos : JS.Math_floor 2.5%float = 2%float.
Proof. reflexivity. Qed.

Example Math_floor_neg : JS.Math_floor (-0.25)%float = (-1)%float.
Proof. reflexivity. Qed.

Example Math_floor_nan :
  PrimFloat.is_nan (JS.Math_floor (PrimFloat.div 0%float 0%float)) = true.
Proof. reflexivity. Qed.

Example progress_halfway :
  progress (getStatus (this after_first_segment)) = 50%float.
Proof. vm_compute. reflexivity. Qed.

(** ** More on the standalone retry loop *)

Module NaiveRun.

(** How the subprocess of one attempt ends. *)
Inductive Exit :=
| exited (elapsed : Z) (code : option Z) (signal : option string)
| spawn_error.

(** [recordSegment]: how its promise settles when the subprocess, started
    at [startTime] to write [filename], ends as [e]. *)
Definition recordSegment (startTime : Z) (filename : string) (e : Exit)
  : Naive.Settled :=
  match e with
  | exited elapsed code signal =>
      Naive.onExit startTime (startTime + elapsed) code signal filename
  | spawn_error => Naive.onError
  end.

(** The lines "Attempt n: Recording r more seconds..." of the iterations
    whose promise settled: the attempt number and the duration asked of
    ffmpeg. *)
Fixpoint log (settled : list Naive.Settled) (st : Naive.State)
  : list (Z * Z) :=
  match settled with
  | [] => []
  | s :: settled' =>
      if Naive.totalRecorded st <? Naive.targetDuration
      then (Naive.attempt st,
            Naive.targetDuration - Naive.totalRecorded st)
             :: log settled' (Naive.iteration s st)
      else []
  end.

(** What [recordSegment] resolves with is at least five seconds long. *)
Definition genuine (s : Naive.Settled) : Prop :=
  match s with
  | Naive.resolved duration _ => 5 <= duration
  | Naive.rejected _ => True
  end.

Definition is_resolved (s : Naive.Settled) : bool :=
  match s with Naive.resolved _ _ => true | Naive.rejected _ => false end.

(** The durations of the segments among [settled] that were saved. *)
Fixpoint durations (settled : list Naive.Settled) : Z :=
  match settled with
  | [] => 0
  | Naive.resolved duration _ :: settled' => duration + durations settled'
  | Naive.rejected _ :: settled' => durations settled'
  end.

(** The number of lines "Segment saved: ..." the loop prints. *)
Fixpoint recorded (settled : list Naive.Settled) (st : Naive.State) : nat :=
  match settled with
  | [] => O
  | s :: settled' =>
      if Naive.totalRecorded st <? Naive.targetDuration
      then (if is_resolved s then 1 else 0)%nat
           + recorded settled' (Naive.iteration s st)
      else O
  end.

End NaiveRun.

Lemma recordSegment_genuine
    (startTime : Z) (filename : string) (e : NaiveRun.Exit) :
  NaiveRun.genuine (NaiveRun.recordSegment startTime filename e).
Proof.
  destruct e as [elapsed code signal|]; cbn; [|exact I].
  unfold Naive.onExit.
  destruct ((startTime + elapsed - startTime) / 1000 <? 5) eqn:H; cbn;
    [exact I|].
  now apply Z.ltb_ge in H.
Qed.

Lemma log_attempts (settled : list Naive.Settled) (st : Naive.State) :
  map fst (NaiveRun.log settled st)
  = seqZ (Naive.attempt st) (Z.of_nat (length (NaiveRun.log settled st)))
  /\ Naive.attempt (Naive.startRecording settled st)
     = Naive.attempt st + Z.of_nat (length (NaiveRun.log settled st)).
Proof.
  revert st. induction settled as [|s settled IH]; intros st; cbn.
  - split; [reflexivity | lia].
  - destruct (Naive.totalRecorded st <? Naive.targetDuration); cbn.
    + destruct (IH (Naive.iteration s st)) as [IHlog IHend].
      rewrite iteration_attempt in IHlog, IHend.
      split.
      * rewrite IHlog, Nat2Z.inj_succ, (seqZ_cons (Naive.attempt st)) by lia.
        do 2 f_equal; lia.
      * rewrite IHend. lia.
    + split; [reflexivity | lia].
Qed.

(** X13: In the standalone loop the attempts are numbered 1, 2, 3, ... without
    gap or repeat, whether they succeed or fail, and the counter ends one
    above the number of attempts made. *)
Theorem attempts_are_numbered (settled : list Naive.Settled) :
  map fst (NaiveRun.log settled Naive.initial)
  = seqZ 1 (Z.of_nat (length (NaiveRun.log settled Naive.initial)))
  /\ Naive.attempt (Naive.startRecording settled Naive.initial)
     = 1 + Z.of_nat (length (NaiveRun.log settled Naive.initial)).
Proof. apply (log_attempts settled Naive.initial). Qed.

Lemma log_requests (settled : list Naive.Settled) (st : Naive.State) :
  Forall NaiveRun.genuine settled ->
  0 <= Naive.totalRecorded st ->
  Forall (fun line => 0 < snd line <= Naive.targetDuration)
         (NaiveRun.log settled st)
  /\ Naive.totalRecorded st
     <= Naive.totalRecorded (Naive.startRecording settled st)
  /\ 5 * Z.of_nat (NaiveRun.recorded settled st)
     <= Z.max 0 (Naive.targetDuration - Naive.totalRecorded st + 4).
Proof.
  intros Hgen. revert st.
  induction Hgen as [|s settled Hs _ IH]; intros st Hst; cbn.
  - split; [constructor | lia].
  - destruct (Naive.totalRecorded st <? Naive.targetDuration) eqn:Hlt; cbn.
    + apply Z.ltb_lt in Hlt.
      destruct (IH (Naive.iteration s st)) as (IHlog & IHtot & IHcount);
        [destruct s; cbn in Hs |- *; lia|].
      split; [constructor; [cbn; lia | exact IHlog]|].
      destruct s as [duration filename|e]; cbn in Hs, IHtot, IHcount |- *;
        unfold Naive.targetDuration in *; lia.
    + split; [constructor | lia].
Qed.

(** X14: Fed with what [recordSegment] can settle to, the loop asks ffmpeg for
    a duration between one second and the target every time, never lets
    [totalRecorded] go down, and records at most 24 segments: each
    recorded segment counts for five seconds or more. *)
Theorem requests_stay_within_target (settled : list Naive.Settled) :
  Forall NaiveRun.genuine settled ->
  Forall (fun line => 0 < snd line <= Naive.targetDuration)
         (NaiveRun.log settled Naive.initial)
  /\ 0 <= Naive.totalRecorded (Naive.startRecording settled Naive.initial)
  /\ (NaiveRun.recorded settled Naive.initial <= 24)%nat.
Proof.
  intros Hgen.
  destruct (log_requests settled Naive.initial Hgen) as (Hlog & Htot & Hcount);
    [cbn; lia|].
  split; [exact Hlog|]. split; [exact Htot|].
  cbn in Hcount. unfold Naive.targetDuration in Hcount. lia.
Qed.

Lemma loop_stops_at_target (settled : list Naive.Settled) (st : Naive.State) :
  (length (NaiveRun.log settled st) < length settled)%nat ->
  Naive.targetDuration <= Naive.totalRecorded (Naive.startRecording settled st).
Proof.
  revert st. induction settled as [|s settled IH]; intros st; cbn; [lia|].
  destruct (Naive.totalRecorded st <? Naive.targetDuration) eqn:Hlt; cbn.
  - intros Hlen. apply IH. lia.
  - intros _. now apply Z.ltb_ge in Hlt.
Qed.

Lemma loop_total (settled : list Naive.Settled) (st : Naive.State) :
  Naive.totalRecorded (Naive.startRecording settled st)
  = Naive.totalRecorded st
    + NaiveRun.durations (take (length (NaiveRun.log settled st)) settled).
Proof.
  revert st. induction settled as [|s settled IH]; intros st; cbn; [lia|].
  destruct (Naive.totalRecorded st <? Naive.targetDuration); cbn; [|lia].
  rewrite IH. destruct s; cbn; lia.
Qed.

(** X15: When the loop is over, [totalRecorded] is the sum of the durations of
    the segments that were saved, failed attempts counting for nothing;
    and the loop leaves a settled promise without a following attempt only
    when that sum has reached the target. *)
Theorem loop_total_and_exit (settled : list Naive.Settled) :
  Naive.totalRecorded (Naive.startRecording settled Naive.initial)
  = NaiveRun.durations
      (take (length (NaiveRun.log settled Naive.initial)) settled)
  /\ ((length (NaiveRun.log settled Naive.initial) < length settled)%nat ->
      Naive.targetDuration
      <= NaiveRun.durations
           (take (length (NaiveRun.log settled Naive.initial)) settled)).
Proof.
  pose proof (loop_total settled Naive.initial) as Htotal.
  change (Naive.totalRecorded Naive.initial) with 0 in Htotal.
  rewrite Z.add_0_l in Htotal.
  split; [exact Htotal|].
  intros Hleft. rewrite <- Htotal. now apply loop_stops_at_target.
Qed.

(** X16: With fewer than five seconds of the target left, an ffmpeg that stops
    when the requested duration is over (or cannot be spawned) is rejected
    every time as "failed quickly": [totalRecorded] stays where it is,
    below the target, and the loop goes on retrying. *)
Theorem last_seconds_are_never_recorded
    (ends : list (Z * string * NaiveRun.Exit)) (st : Naive.State) :
  Naive.targetDuration - 5 < Naive.totalRecorded st < Naive.targetDuration ->
  Forall (fun run =>
            match snd run with
            | NaiveRun.exited elapsed _ _ =>
                elapsed
                <= 1000 * (Naive.targetDuration - Naive.totalRecorded st)
            | NaiveRun.spawn_error => True
            end) ends ->
  let settled :=
    map (fun run => NaiveRun.recordSegment (fst (fst run)) (snd (fst run))
                      (snd run)) ends in
  Naive.totalRecorded (Naive.startRecording settled st)
  = Naive.totalRecorded st
  /\ length (NaiveRun.log settled st) = length ends
  /\ Forall (fun s => NaiveRun.is_resolved s = false) settled.
Proof.
  intros Hleft Hends settled. subst settled. revert st Hleft Hends.
  induction ends as [|[[startTime filename] e] ends IH]; intros st Hleft Hends;
    cbn; [repeat split; constructor|].
  apply Forall_cons in Hends as [He Hends]. cbn in He.
  assert (Hlt : (Naive.totalRecorded st <? Naive.targetDuration) = true)
    by (apply Z.ltb_lt; lia).
  rewrite Hlt.
  assert (Hrej : exists err,
             NaiveRun.recordSegment startTime filename e
             = Naive.rejected err).
  { destruct e as [elapsed code signal|]; cbn.
    - eexists. apply onExit_quick. lia.
    - eexists. reflexivity. }
  destruct Hrej as [err Hrej]. rewrite Hrej.
  destruct (IH (Naive.iteration (Naive.rejected err) st)) as (Htot & Hlen & Hall).
  - cbn. exact Hleft.
  - exact Hends.
  - cbn in Htot |- *. split; [exact Htot|]. split; [now rewrite Hlen|].
    constructor; [reflexivity | exact Hall].
Qed.

(** ** More on the availability probe *)

Section ProbeCleanup.

Import Probe.

Variable URL_new : string -> option URL.

Lemma resolve_frame (value : bool) (st : ProbeState) :
  timeout (resolve value st) = timeout st
  /\ req (resolve value st) = req st
  /\ destroyed (resolve value st) = destroyed st.
Proof. unfold resolve. destruct (promise st); auto. Qed.

Lemma handle_req (st : ProbeState) (ev : ProbeEvent) :
  req (handle st ev) = req st.
Proof.
  destruct ev; cbn; try destruct (timeout st); trivial;
    now rewrite (proj1 (proj2 (resolve_frame _ _))).
Qed.

Lemma handle_timeout (st : ProbeState) (ev : ProbeEvent) :
  timeout (handle st ev) = false.
Proof.
  destruct ev; cbn; try destruct (timeout st) eqn:Ht; trivial;
    now rewrite (proj1 (resolve_frame _ _)).
Qed.

Lemma handle_destroyed (st : ProbeState) (ev : ProbeEvent) :
  destroyed (handle st ev) = true
  <-> destroyed st = true \/ ev = RequestTimeout.
Proof.
  destruct ev; cbn; try destruct (timeout st);
    rewrite ?(proj2 (proj2 (resolve_frame _ _))); cbn;
    intuition congruence.
Qed.

Lemma handled_state (evs : list ProbeEvent) (st : ProbeState) :
  req (foldl handle st evs) = req st
  /\ (evs <> [] -> timeout (foldl handle st evs) = false)
  /\ (destroyed (foldl handle st evs) = true
      <-> destroyed st = true \/ RequestTimeout ∈ evs).
Proof.
  revert st. induction evs as [|ev evs IH]; intros st; cbn.
  - split; [reflexivity|]. split; [congruence|].
    rewrite elem_of_nil. tauto.
  - destruct (IH (handle st ev)) as (Hreq & Htimer & Hdestroyed).
    split; [now rewrite Hreq, handle_req|]. split.
    + intros _. destruct evs as [|ev' evs]; [apply handle_timeout|].
      apply Htimer. discriminate.
    + rewrite Hdestroyed, handle_destroyed, elem_of_cons.
      intuition congruence.
Qed.

(** X11: The probe sends one HEAD request with a three-second timeout, over
    https exactly for an [https:] URL, and no callback replaces it; once
    any callback has run, the three-second timer is no longer armed; and
    the request is destroyed exactly when its [timeout] event was among
    the callbacks: when the timer fires first, the request is left
    open. *)
Theorem probe_request_and_timer
    (streamUrl : string) (url : URL) (evs : list ProbeEvent) :
  URL_new streamUrl = Some url ->
  let st := foldl handle (executor URL_new streamUrl) evs in
  req st
  = Some (if String.eqb (protocol url) "https:" then https else http,
          {| opt_hostname := hostname url;
             opt_port := port url;
             opt_path := pathname url +:+ search url;
             opt_method := "HEAD";
             opt_timeout := 3000 |})
  /\ (evs <> [] -> timeout st = false)
  /\ (destroyed st = true <-> RequestTimeout ∈ evs).
Proof.
  intros Hurl st.
  destruct (handled_state evs (executor URL_new streamUrl))
    as (Hreq & Htimer & Hdestroyed).
  fold st in Hreq, Htimer, Hdestroyed.
  split; [|split; [exact Htimer|]].
  - rewrite Hreq. unfold executor. now rewrite Hurl.
  - rewrite Hdestroyed. unfold executor. rewrite Hurl. cbn.
    intuition congruence.
Qed.

(** X12: A stream URL that [new URL] refuses makes [checkStreamAvailability]
    reject: the executor throws before any timer is set or request made,
    and nothing that arrives later changes that. *)
Theorem checkStreamAvailability_rejects
    (streamUrl : string) (evs : list ProbeEvent) :
  URL_new streamUrl = None ->
  checkStreamAvailability URL_new streamUrl evs = Rejected
  /\ req (foldl handle (executor URL_new streamUrl) evs) = None
  /\ timeout (executor URL_new streamUrl) = false.
Proof.
  intros Hurl. split; [now apply checkStreamAvailability_invalid_url|].
  rewrite (proj1 (handled_state evs _)).
  unfold executor. rewrite Hurl. auto.
Qed.

End ProbeCleanup.

(** ** The further properties on concrete runs *)

Lemma probe_request_and_timer_witness :
  Probe.req (foldl Probe.handle
               (Probe.executor parse_live "https://example.org/live")
               [Probe.TimerExpired; Probe.Response 200])
  = Some (Probe.https,
          {| Probe.opt_hostname := "example.org";
             Probe.opt_port := EmptyString;
             Probe.opt_path := "/live";
             Probe.opt_method := "HEAD";
             Probe.opt_timeout := 3000 |})
  /\ Probe.destroyed
       (foldl Probe.handle
          (Probe.executor parse_live "https://example.org/live")
          [Probe.TimerExpired; Probe.Response 200])
     <> true.
Proof.
  destruct (probe_request_and_timer parse_live "https://example.org/live"
              {| Probe.protocol := "https:";
                 Probe.hostname := "example.org";
                 Probe.port := EmptyString;
                 Probe.pathname := "/live";
                 Probe.search := EmptyString |}
              [Probe.TimerExpired; Probe.Response 200] eq_refl)
    as (Hreq & _ & Hdestroyed).
  split; [rewrite Hreq; vm_compute; reflexivity|].
  intros Hd. apply Hdestroyed in Hd.
  apply elem_of_cons in Hd as [Hd|Hd]; [discriminate|].
  apply list_elem_of_singleton in Hd. discriminate.
Defined.

Lemma checkStreamAvailability_rejects_witness :
  Probe.checkStreamAvailability parse_refused "not a url"
    [Probe.Response 200]
  = Probe.Rejected.
Proof.
  apply (checkStreamAvailability_rejects parse_refused "not a url"
           [Probe.Response 200] eq_refl).
Defined.

Lemma mergeRecordings_manifest_witness :
  exists w',
    mergeRecordings posix_join posix_resolve "out.mp4" two_segments
    = (w', MergeSpawned merge0)
    /\ map index (recordings (this w')) = [0; 1]%nat
    /\ fs w' !! concatFile merge0
       = Some (concatContent posix_resolve
                 [{| file := segment0; duration := 60000; index := 0 |};
                  {| file := segment1; duration := 60000; index := 1 |}]).
Proof.
  destruct (mergeRecordings_manifest posix_join posix_resolve "out.mp4"
              two_segments
              {| file := segment0; duration := 60000; index := 0 |}
              {| file := segment1; duration := 60000; index := 1 |} [])
    as (w' & Hmerge & _ & _ & _ & Hrec & Hfs & _).
  - vm_compute. reflexivity.
  - exists w'. split; [rewrite Hmerge; vm_compute; reflexivity|].
    split; [rewrite Hrec; vm_compute; reflexivity|].
    rewrite Hfs. vm_compute. reflexivity.
Defined.

Lemma mergeClose_success_witness :
  exists w',
    mergeClose merge0 (Some 0) merging = (w', MergeResolved "/rec/out.mp4")
    /\ fs w' !! concatFile merge0 = None
    /\ fs w' !! segment0 = None
    /\ fs w' !! segment1 = None.
Proof.
  destruct (mergeClose_success merge0 merging)
    as (w' & Hclose & _ & _ & Hmanifest & Hgone & _).
  - unfold is_Some. eexists. vm_compute. reflexivity.
  - exists w'. split; [exact Hclose|]. split; [exact Hmanifest|]. split.
    + apply (Hgone {| file := segment0; duration := 60000; index := 0 |}).
      vm_compute. apply list_elem_of_here.
    + apply (Hgone {| file := segment1; duration := 60000; index := 1 |}).
      vm_compute. apply list_elem_of_further, list_elem_of_here.
Defined.

Lemma startRecording_no_time_witness :
  last (actions
          (fst (startRecordingChecked posix_join posix_resolve
                  (finalOutputOf (Some "out.mp4")
                     (this (startRecording 0 (Some "out.mp4") t0 world0)))
                  true t0 (startRecording 0 (Some "out.mp4") t0 world0))))
  = Some (Reject (Error "No recordings to merge")).
Proof.
  destruct (startRecording_no_time posix_join posix_resolve 0
              (Some "out.mp4") true t0 world0)
    as (Hlast & _).
  - lia.
  - vm_compute. reflexivity.
  - exact Hlast.
Defined.

Lemma single_capture_session_witness :
  fs (run posix_join posix_resolve
        (new_world "https://example.org/live" "/rec" t0 ∅)
        [StartRecording 2 (Some "out.mp4") t0;
         InitialCheck
           (finalOutputOf (Some "out.mp4")
              (constructor "https://example.org/live" "/rec" t0))
           true t0;
         SubprocessWrites
           (segmentPath posix_join
              (constructor "https://example.org/live" "/rec" t0) 0)
           "AAAA";
         Close
           {| segmentIndex := 0;
              segmentFile :=
                segmentPath posix_join
                  (constructor "https://example.org/live" "/rec" t0) 0;
              segmentStartTime := t0;
              process := 0 |}
           (Some 0) (t0 + 120000);
         CheckCompletion
           (finalOutputOf (Some "out.mp4")
              (constructor "https://example.org/live" "/rec" t0))])
  !! posix_join "/rec"
       (finalOutputOf (Some "out.mp4")
          (constructor "https://example.org/live" "/rec" t0))
  = Some "AAAA".
Proof.
  destruct (single_capture_session posix_join posix_resolve
              "https://example.org/live" "/rec" t0 ∅ 2 (Some "out.mp4")
              t0 (t0 + 120000) "AAAA")
    as (_ & Hfinal & _).
  - lia.
  - vm_compute. discriminate.
  - exact Hfinal.
Defined.



Lemma capturing_reachable : reachable posix_join posix_resolve capturing.
Proof.
  exists "https://example.org/live", "/rec", t0, ∅,
    [StartRecording 2 (Some "out.mp4") t0; InitialCheck "out.mp4" true t0].
  vm_compute. reflexivity.
Defined.

Lemma stop_signals_the_capture_witness :
  exists pid,
    currentProcess (this capturing) = Some pid
    /\ last (actions (stop capturing)) = Some (Kill pid "SIGTERM")
    /\ isRecording (this (stop capturing)) = false.
Proof.
  apply (stop_signals_the_capture posix_join posix_resolve capturing
           capturing_reachable).
  vm_compute. reflexivity.
Defined.

Lemma posix_join_inj (dir : string) : Inj (=) (=) (posix_join dir).
Proof.
  intros name1 name2 Heq. unfold posix_join in Heq.
  apply String.app_inj in Heq. now apply String.app_inj in Heq.
Defined.

Lemma session_files_distinct_witness :
  NoDup (map file
           (recordings (this (run posix_join posix_resolve started
                                three_attempts)))).
Proof.
  destruct (session_files_distinct posix_join posix_resolve started
              three_attempts)
    as (_ & Hdistinct).
  - vm_compute. reflexivity.
  - vm_compute. reflexivity.
  - destruct Hdistinct as (_ & Hfiles); [vm_compute; reflexivity|].
    apply Hfiles.
    apply (segmentPath_inj posix_join (this started) posix_join_inj).
Defined.

Lemma requests_stay_within_target_witness :
  (NaiveRun.recorded
     [Naive.resolved 117 "segment_a.mp4";
      Naive.rejected (Error "Stream down or FFmpeg failed quickly.");
      Naive.resolved 5 "segment_b.mp4"]
     Naive.initial <= 24)%nat.
Proof.
  apply (requests_stay_within_target
           [Naive.resolved 117 "segment_a.mp4";
            Naive.rejected (Error "Stream down or FFmpeg failed quickly.");
            Naive.resolved 5 "segment_b.mp4"]).
  repeat constructor; cbn; lia.
Defined.

Lemma last_seconds_are_never_recorded_witness :
  Naive.totalRecorded
    (Naive.startRecording
       (map (fun run =>
               NaiveRun.recordSegment (fst (fst run)) (snd (fst run))
                 (snd run))
          [(t0, "segment_b.mp4", NaiveRun.exited 3000 (Some 0) None);
           (t0 + 18000, "segment_c.mp4", NaiveRun.spawn_error)])
       {| Naive.totalRecorded := 117; Naive.attempt := 2 |})
  = 117.
Proof.
  apply (last_seconds_are_never_recorded
           [(t0, "segment_b.mp4", NaiveRun.exited 3000 (Some 0) None);
            (t0 + 18000, "segment_c.mp4", NaiveRun.spawn_error)]
           {| Naive.totalRecorded := 117; Naive.attempt := 2 |}).
  - vm_compute. split; reflexivity.
  - repeat constructor. vm_compute. discriminate.
Defined.
